(** * Widget positioning of the editor toolbar (WidgetPosition)

    A shallow embedding of the [WidgetPosition] higher-order component:
    the interaction-point resolver, the viewport constraint, the placement
    of the widget next to its anchor, and the show / move / update
    transitions on the widget's DOM node.

    Numbers.  A JavaScript number is modelled as a rational, or as [NaN]
    where the source can produce one ([parseFloat] and [parseInt] of a
    style text).  Rounding and infinities of IEEE doubles are outside the
    model.  Measured geometry (client rects, offsets, scroll positions) is
    always a finite number and is typed [Q] directly. *)

From stdpp Require Import gmap strings list.
From Stdlib Require Import QArith Qabs Qminmax Lqa.

Set Default Proof Using "Type".
Local Open Scope Q_scope.

(** ** JavaScript values *)

Module JS.

(** A number as the arithmetic of the component sees it. *)
Inductive num : Type :=
| NaN
| Num (q : Q).

Definition add (a b : num) : num :=
  match a, b with
  | Num x, Num y => Num (x + y)
  | _, _ => NaN
  end.

Definition sub (a b : num) : num :=
  match a, b with
  | Num x, Num y => Num (x - y)
  | _, _ => NaN
  end.

(** [a < b] on rationals, as a boolean. *)
Definition Qltb (x y : Q) : bool :=
  match (x ?= y)%Q with
  | Lt => true
  | _ => false
  end.

(** [a === b] on finite numbers. *)
Definition Qeqb (x y : Q) : bool := Qeq_bool x y.

(** Any comparison with [NaN] is false. *)
Definition ltb (a b : num) : bool :=
  match a, b with
  | Num x, Num y => Qltb x y
  | _, _ => false
  end.

Definition gtb (a b : num) : bool := ltb b a.

(** Truthiness of a finite number: [0] is falsy. *)
Definition truthy (q : Q) : bool := negb (Qeqb q 0).

(** Equality of numbers up to the representation of the rational. *)
Definition num_eq (a b : num) : Prop :=
  match a, b with
  | NaN, NaN => True
  | Num x, Num y => (x == y)%Q
  | _, _ => False
  end.

(** Outcome of a call: a value, or the [TypeError] raised by reading a
    property of [undefined] or [null]. *)
Inductive result (A : Type) : Type :=
| Ok (a : A)
| TypeError.
Arguments Ok {A} a.
Arguments TypeError {A}.

#[global] Instance result_ret : MRet result := @Ok.

#[global] Instance result_bind : MBind result :=
  fun A B (k : A -> result B) (m : result A) =>
    match m with
    | Ok a => k a
    | TypeError => TypeError
    end.

(** Reading a property through a reference that may be absent. *)
Definition deref {A : Type} (o : option A) : result A :=
  match o with
  | Some a => Ok a
  | None => TypeError
  end.

End JS.

Export JS (num, NaN, Num, result, Ok, TypeError).

(** ** Data model *)

(** Modelled from the spec: the [CKEDITOR.SELECTION_*] constants are
    declared by the host editor, outside the sources at hand.  The spec
    lists the values a direction takes; they are pairwise distinct. *)
Inductive Direction : Type :=
| SELECTION_TOP_TO_BOTTOM
| SELECTION_BOTTOM_TO_TOP
| SELECTION_LEFT_TO_RIGHT
| SELECTION_RIGHT_TO_LEFT
| SELECTION_NONE.

#[global] Instance Direction_eq_dec : EqDecision Direction.
Proof. solve_decision. Defined.

(** A value held by a style property.  [CssPx n] is the text made by
    [n + 'px']; [CssNumber q] a bare number; [CssText s] any text that
    does not start with a number (['auto'], ['none'], [''], ...). *)
Inductive CssValue : Type :=
| CssPx (n : num)
| CssNumber (q : Q)
| CssText (s : string).

Definition parseFloat (v : CssValue) : num :=
  match v with
  | CssPx n => n
  | CssNumber q => Num q
  | CssText _ => NaN
  end.

(** The integer part of a rational, rounding toward zero. *)
Definition Qtruncate (q : Q) : Z := Z.quot (Qnum q) (Zpos (Qden q)).

(** [parseInt(v, 10)] keeps the integer part. *)
Definition parseInt (v : CssValue) : num :=
  match v with
  | CssPx (Num q) => Num (inject_Z (Qtruncate q))
  | CssPx NaN => NaN
  | CssNumber q => Num (inject_Z (Qtruncate q))
  | CssText _ => NaN
  end.

Definition is_text (v : CssValue) (s : string) : bool :=
  match v with
  | CssText t => bool_decide (t = s)
  | _ => false
  end.

Module Rect.
Record t : Type := mk
  { left : Q; top : Q; right : Q; bottom : Q }.
End Rect.

Module Region.
Record t : Type := mk
  { top : Q; bottom : Q; left : Q; right : Q; width : Q; height : Q;
    direction : Direction;
    startRect : option Rect.t;
    endRect : option Rect.t }.
End Region.

Module SelectionData.
Record t : Type := mk { region : Region.t }.
End SelectionData.

Module Attrs.
Record t : Type := mk
  { height : num; left : num; top : num; width : num }.
End Attrs.

Module ViewPaneSize.
Record t : Type := mk { width : num }.
End ViewPaneSize.

Module Position.
Record t : Type := mk { x : num; y : num }.
End Position.

Module Gutter.
Record t : Type := mk { left : Q; top : Q }.
End Gutter.

(** ** The viewport constraint *)

Section Constraint.

(** [currentViewPane] stands for
    [new CKEDITOR.dom.window(window).getViewPaneSize()]. *)
Variable currentViewPane : ViewPaneSize.t.

Definition getConstrainedPosition
    (attrs : Attrs.t) (viewPaneSize : option ViewPaneSize.t) : Position.t :=
  let viewPaneSize := default currentViewPane viewPaneSize in
  let x := Attrs.left attrs in
  let y := Attrs.top attrs in
  let x :=
    if JS.gtb (JS.add (Attrs.left attrs) (Attrs.width attrs))
              (ViewPaneSize.width viewPaneSize)
    then JS.sub x (JS.sub (JS.add (Attrs.left attrs) (Attrs.width attrs))
                          (ViewPaneSize.width viewPaneSize))
    else x in
  let y := if JS.ltb y (Num 0) then Num 0 else y in
  Position.mk x y.

End Constraint.

(** ** DOM elements

    The style and class helpers below are those of the host editor's
    element wrapper ([CKEDITOR.dom.element]): [getStyle] reads the inline
    style and yields the empty text for a property that is not set,
    [setStyle] stores the value, and the class helpers act on the class
    list. *)

(** The handler registered by [moveToPoint] for ['transitionend']. *)
Inductive Listener : Type :=
| ClearPointerEvents.

Module Element.
Record t : Type := mk
  { tagName : string;
    style : gmap string CssValue;
    computedStyle : gmap string CssValue;
    classes : gset string;
    offsetTop : Q;
    offsetWidth : Q;
    offsetHeight : Q;
    clientWidth : Q;
    scrollTop : Q;
    listeners : list (string * Listener) }.

Definition with_style (f : gmap string CssValue -> gmap string CssValue)
    (e : t) : t :=
  mk (tagName e) (f (style e)) (computedStyle e) (classes e) (offsetTop e)
     (offsetWidth e) (offsetHeight e) (clientWidth e) (scrollTop e)
     (listeners e).

Definition with_classes (f : gset string -> gset string) (e : t) : t :=
  mk (tagName e) (style e) (computedStyle e) (f (classes e)) (offsetTop e)
     (offsetWidth e) (offsetHeight e) (clientWidth e) (scrollTop e)
     (listeners e).

Definition getStyle (e : t) (name : string) : CssValue :=
  default (CssText "") (style e !! name).

Definition setStyle (name : string) (v : CssValue) (e : t) : t :=
  with_style (insert name v) e.

(** [setStyles] sets the properties of its argument in their order. *)
Definition setStyles (props : list (string * CssValue)) (e : t) : t :=
  foldl (fun acc p => setStyle (fst p) (snd p) acc) e props.

Definition hasClass (e : t) (c : string) : bool :=
  bool_decide (c ∈ classes e).

Definition addClass (c : string) (e : t) : t :=
  with_classes (fun cs => cs ∪ {[ c ]}) e.

Definition removeClass (c : string) (e : t) : t :=
  with_classes (fun cs => cs ∖ {[ c ]}) e.

Definition addEventListener (ev : string) (h : Listener) (e : t) : t :=
  mk (tagName e) (style e) (computedStyle e) (classes e) (offsetTop e)
     (offsetWidth e) (offsetHeight e) (clientWidth e) (scrollTop e)
     (listeners e ++ [(ev, h)]).

(** [getComputedStyle(e).getPropertyValue(name)]. *)
Definition getPropertyValue (e : t) (name : string) : CssValue :=
  default (CssText "") (computedStyle e !! name).
End Element.

(** ** Interaction events *)

Module NativeEvent.
Record t : Type := mk
  { pageX : option Q;
    target : option Element.t }.
End NativeEvent.

Module EventPayload.
Record t : Type := mk
  { nativeEvent : option NativeEvent.t;
    selectionData : option SelectionData.t }.
End EventPayload.

Module EditorEvent.
Record t : Type := mk { data : option EventPayload.t }.
End EditorEvent.

Module InteractionPoint.
Record t : Type := mk { direction : Direction; x : Q; y : Q }.
End InteractionPoint.

(** ** The interaction-point resolver *)

Definition _getXPoint (selectionData : SelectionData.t) (eventX : Q) : Q :=
  let region := SelectionData.region selectionData in
  let left :=
    match Region.startRect region with
    | Some r => Rect.left r
    | None => Region.left region
    end in
  let right :=
    match Region.endRect region with
    | Some r => Rect.right r
    | None => Region.right region
    end in
  if JS.Qltb left eventX && JS.Qltb eventX right then eventX
  else
    let leftDist := Qabs (left - eventX) in
    let rightDist := Qabs (right - eventX) in
    if JS.Qltb leftDist rightDist then left else right.

Definition _getYPoint (selectionData : option SelectionData.t)
    (nativeEvent : option NativeEvent.t) : Q :=
  match selectionData, nativeEvent with
  | Some selectionData, Some nativeEvent =>
      match NativeEvent.target nativeEvent with
      | Some target =>
          if is_text (Element.getStyle target "overflow") "auto"
          then Element.offsetTop target + Element.offsetHeight target
          else Region.bottom (SelectionData.region selectionData)
      | None => Region.bottom (SelectionData.region selectionData)
      end
  | _, _ => 0
  end.

(** The direction after the single-line override. *)
Definition resolvedDirection (region : Region.t) : Direction :=
  match Region.endRect region, Region.startRect region with
  | Some endRect, Some startRect =>
      if JS.Qeqb (Rect.top startRect) (Rect.top endRect)
      then SELECTION_BOTTOM_TO_TOP
      else Region.direction region
  | _, _ => Region.direction region
  end.

Definition getInteractionPoint (editorEvent : option EditorEvent.t)
    : result (option InteractionPoint.t) :=
  match editorEvent ≫= EditorEvent.data with
  | None => Ok None
  | Some eventPayload =>
      let selectionData := EventPayload.selectionData eventPayload in
      let nativeEvent := EventPayload.nativeEvent eventPayload in
      ne ← JS.deref (EventPayload.nativeEvent eventPayload);
      sd ← JS.deref selectionData;
      let region := SelectionData.region sd in
      let pos_x := NativeEvent.pageX ne in
      let pos_y := Region.top region in
      let direction := resolvedDirection region in
      let atMiddle :=
        let x := Region.left region + Region.width region / 2 in
        let y :=
          if decide (direction = SELECTION_TOP_TO_BOTTOM)
          then _getYPoint selectionData nativeEvent
          else Region.top region in
        InteractionPoint.mk direction x y in
      match pos_x with
      | Some px =>
          if JS.truthy px && JS.truthy pos_y then
            let x := _getXPoint sd px in
            let y :=
              if decide (direction = SELECTION_BOTTOM_TO_TOP)
              then Qmin pos_y (Region.top region)
              else Qmax pos_y (_getYPoint selectionData nativeEvent) in
            Ok (Some (InteractionPoint.mk direction x y))
          else Ok (Some atMiddle)
      | None => Ok (Some atMiddle)
      end
  end.

(** ** The widget and its environment *)

(** The callback handed to [_animate] by [moveToPoint]: it marks the
    widget visible and moves it to the end point. *)
Inductive FrameCallback : Type :=
| TransitionTo (endPoint : num * num).

Module Window.
Record t : Type := mk
  { requestAnimationFrame : bool;   (* is the primitive available *)
    cancelAnimationFrame : bool;    (* is the primitive available *)
    pending : list (nat * FrameCallback);
    nextHandle : nat;
    viewPaneSize : ViewPaneSize.t;
    body : Element.t }.

Definition with_pending
    (f : list (nat * FrameCallback) -> list (nat * FrameCallback))
    (w : t) : t :=
  mk (requestAnimationFrame w) (cancelAnimationFrame w) (f (pending w))
     (nextHandle w) (viewPaneSize w) (body w).
End Window.

Module Props.
Record t : Type := mk
  { editorEvent : option EditorEvent.t;
    gutter : Gutter.t;
    constrainToViewport : bool;
    selectionData : option SelectionData.t }.
End Props.

Module Widget.
(** [domNode] is [ReactDOM.findDOMNode(this)], absent while the widget is
    not mounted; [uiNode] is [this.context.editor.get('uiNode')]. *)
Record t : Type := mk
  { props : Props.t;
    uiNode : option Element.t;
    domNode : option Element.t;
    _animationFrameId : option nat;
    window : Window.t }.

Definition with_domNode (f : Element.t -> Element.t) (w : t) : t :=
  mk (props w) (uiNode w) (f <$> domNode w) (_animationFrameId w) (window w).
End Widget.

(** ** Placement next to the anchor *)

Definition getWidgetXYPoint (this : Widget.t) (left top : Q)
    (direction : Direction) : result (Q * Q) :=
  let domNode := Widget.domNode this in
  let gutter := Props.gutter (Widget.props this) in
  leftTop ←
    (if decide (direction = SELECTION_TOP_TO_BOTTOM
                ∨ direction = SELECTION_BOTTOM_TO_TOP) then
       node ← JS.deref domNode;
       let left := left - Gutter.left gutter - Element.offsetWidth node / 2 in
       let top :=
         if decide (direction = SELECTION_TOP_TO_BOTTOM)
         then top + Gutter.top gutter
         else top - Element.offsetHeight node - Gutter.top gutter in
       Ok (left, top)
     else if decide (direction = SELECTION_LEFT_TO_RIGHT
                     ∨ direction = SELECTION_RIGHT_TO_LEFT) then
       node ← JS.deref domNode;
       let left :=
         if decide (direction = SELECTION_LEFT_TO_RIGHT)
         then left + Gutter.left gutter + Element.offsetHeight node / 2
         else left - (3 * Element.offsetHeight node) / 2 - Gutter.left gutter in
       let top := top - Gutter.top gutter - Element.offsetHeight node / 2 in
       Ok (left, top)
     else Ok (left, top));
  let left := if JS.Qltb (fst leftTop) 0 then 0 else fst leftTop in
  let top := if JS.Qltb (snd leftTop) 0 then 0 else snd leftTop in
  Ok (left, top).

(** ** Visibility and transitions *)

Definition isVisible (this : Widget.t) : bool :=
  match Widget.domNode this with
  | Some domNode => Element.hasClass domNode "alloy-editor-visible"
  | None => false
  end.

Definition cancelAnimation (this : Widget.t) : Widget.t :=
  let win := Widget.window this in
  if Window.cancelAnimationFrame win then
    let win' :=
      Window.with_pending
        (filter (fun f => Some (fst f) ≠ Widget._animationFrameId this)) win in
    Widget.mk (Widget.props this) (Widget.uiNode this) (Widget.domNode this)
              (Widget._animationFrameId this) win'
  else this.

(** Running a frame callback on the widget's node. *)
Definition runFrameCallback (cb : FrameCallback) (this : Widget.t) : Widget.t :=
  match cb with
  | TransitionTo endPoint =>
      Widget.with_domNode
        (fun domElement =>
           Element.setStyles
             [("left", CssPx (fst endPoint));
              ("top", CssPx (snd endPoint));
              ("opacity", CssNumber 1)]
             (Element.addClass "alloy-editor-visible"
                (Element.addClass "ae-toolbar-transition" domElement)))
        this
  end.

Definition _animate (callback : FrameCallback) (this : Widget.t) : Widget.t :=
  let win := Widget.window this in
  if Window.requestAnimationFrame win then
    let id := Window.nextHandle win in
    let win' :=
      Window.mk (Window.requestAnimationFrame win)
                (Window.cancelAnimationFrame win)
                (Window.pending win ++ [(id, callback)])
                (S id) (Window.viewPaneSize win) (Window.body win) in
    Widget.mk (Widget.props this) (Widget.uiNode this) (Widget.domNode this)
              (Some id) win'
  else runFrameCallback callback this.

Definition moveToPoint (startPoint endPoint : num * num) (this : Widget.t)
    : result Widget.t :=
  _ ← JS.deref (Widget.domNode this);
  let this :=
    Widget.with_domNode
      (fun domElement =>
         Element.removeClass "alloy-editor-invisible"
           (Element.setStyles
              [("left", CssPx (fst startPoint));
               ("top", CssPx (snd startPoint));
               ("opacity", CssNumber 0);
               ("pointerEvents", CssText "none")]
              domElement))
      this in
  let this := _animate (TransitionTo endPoint) this in
  Ok (Widget.with_domNode
        (Element.addEventListener "transitionend" ClearPointerEvents) this).

Definition show (this : Widget.t) : result Widget.t :=
  let domNode := Widget.domNode this in
  let uiNode := Widget.uiNode this in
  let scrollTop :=
    match uiNode with
    | Some uiNode => Element.scrollTop uiNode
    | None => 0
    end in
  match negb (isVisible this), domNode with
  | true, Some domNode =>
      interactionPoint ←
        getInteractionPoint (Props.editorEvent (Widget.props this));
      match interactionPoint with
      | Some interactionPoint =>
          let initialX := parseFloat (Element.getStyle domNode "left") in
          let initialY := parseFloat (Element.getStyle domNode "top") in
          let finalX := initialX in
          let finalY := initialY in
          let res :=
            if Props.constrainToViewport (Widget.props this) then
              getConstrainedPosition
                (Window.viewPaneSize (Widget.window this))
                (Attrs.mk (Num (Element.offsetHeight domNode)) finalX finalY
                          (Num (Element.offsetWidth domNode)))
                None
            else Position.mk finalX finalY in
          let finalX := Position.x res in
          let finalY := Position.y res in
          selectionData ← JS.deref (Props.selectionData (Widget.props this));
          let region := SelectionData.region selectionData in
          let initialY :=
            if decide (InteractionPoint.direction interactionPoint
                       = SELECTION_TOP_TO_BOTTOM)
            then Num (Region.bottom region + scrollTop)
            else Num (Region.top region + scrollTop) in
          moveToPoint (initialX, initialY) (finalX, finalY) this
      | None => Ok this
      end
  | _, _ => Ok this
  end.

(** [margin-left + clientWidth + margin-right] of the scroll container,
    the margins read through [parseInt]. *)
Definition totalWidth (uiNode : Element.t) : num :=
  let uiNodeMarginLeft := parseInt (Element.getPropertyValue uiNode "margin-left") in
  let uiNodeMarginRight := parseInt (Element.getPropertyValue uiNode "margin-right") in
  JS.add (JS.add uiNodeMarginLeft (Num (Element.clientWidth uiNode)))
         uiNodeMarginRight.

(** The scroll container of [updatePosition]: the configured UI node, or
    the document body. *)
Definition scrollContainer (this : Widget.t) : Element.t :=
  default (Window.body (Widget.window this)) (Widget.uiNode this).

(** The offset [updatePosition] adds to the top coordinate. *)
Definition scrollOffset (uiNode : Element.t) : Q :=
  if bool_decide (Element.tagName uiNode ≠ "BODY"%string)
  then Element.scrollTop uiNode
  else 0.

(** The second clamp of the left coordinate, in the order of the source. *)
Definition clampLeft (x : Q) (totalWidth : num) (offsetWidth : Q) : num :=
  let x0 := if JS.Qltb x 0 then 0 else x in
  if JS.gtb (Num x0) (JS.sub totalWidth (Num offsetWidth))
  then JS.sub totalWidth (Num offsetWidth)
  else Num x0.

Definition updatePosition (this : Widget.t) : result Widget.t :=
  interactionPoint ←
    getInteractionPoint (Props.editorEvent (Widget.props this));
  match interactionPoint, Widget.domNode this with
  | Some interactionPoint, Some domNode =>
      let uiNode := scrollContainer this in
      let totalWidth := totalWidth uiNode in
      let scrollTop := scrollOffset uiNode in
      xy ← getWidgetXYPoint this
             (InteractionPoint.x interactionPoint)
             (InteractionPoint.y interactionPoint)
             (InteractionPoint.direction interactionPoint);
      let xy1 := snd xy + scrollTop in
      let xy0 := clampLeft (fst xy) totalWidth (Element.offsetWidth domNode) in
      Ok (Widget.with_domNode
            (Element.setStyles [("left", CssPx xy0); ("top", CssPx (Num xy1))])
            this)
  | _, _ => Ok this
  end.

(** ** The environment: animation frames

    On the next paint the browser runs the callbacks that are pending, in
    the order of their requests, and the queue is empty afterwards. *)

Definition runCallbacks (callbacks : list (nat * FrameCallback))
    (this : Widget.t) : Widget.t :=
  foldl (fun w f => runFrameCallback (snd f) w) this callbacks.

Definition animationFrame (this : Widget.t) : Widget.t :=
  let callbacks := Window.pending (Widget.window this) in
  let this :=
    Widget.mk (Widget.props this) (Widget.uiNode this) (Widget.domNode this)
              (Widget._animationFrameId this)
              (Window.with_pending (fun _ => []) (Widget.window this)) in
  runCallbacks callbacks this.

(** The handles that are outstanding: requested and neither run nor
    cancelled. *)
Definition outstanding (this : Widget.t) : list nat :=
  fst <$> Window.pending (Widget.window this).

(** Calls made on the controller between two paints. *)
Inductive Call : Type :=
| CallShow
| CallMoveToPoint (startPoint endPoint : num * num).

Definition call (c : Call) (this : Widget.t) : result Widget.t :=
  match c with
  | CallShow => show this
  | CallMoveToPoint startPoint endPoint => moveToPoint startPoint endPoint this
  end.

Fixpoint calls (cs : list Call) (this : Widget.t) : result Widget.t :=
  match cs with
  | [] => Ok this
  | c :: cs => this' ← call c this; calls cs this'
  end.

(** ** Vocabulary of the specification *)

(** The bounds the X-edge heuristic works with: the start rectangle's left
    edge when there is one, else the region's; the end rectangle's right
    edge when there is one, else the region's. *)
Definition edgeLeft (region : Region.t) : Q :=
  from_option Rect.left (Region.left region) (Region.startRect region).

Definition edgeRight (region : Region.t) : Q :=
  from_option Rect.right (Region.right region) (Region.endRect region).

(** ** Sample data *)

Definition sampleRegion (direction : Direction) : Region.t :=
  Region.mk 100 120 10 50 40 20 direction None None.

Definition sampleSelection (direction : Direction) : SelectionData.t :=
  SelectionData.mk (sampleRegion direction).

Definition sampleNode : Element.t :=
  Element.mk "DIV"
    {[ "left" := CssPx (Num 200); "top" := CssPx (Num 300) ]}
    ∅ {[ "alloy-editor-invisible"%string ]} 0 80 20 80 0 [].

Definition sampleBody (scrollTop : Q) : Element.t :=
  Element.mk "BODY" ∅
    {[ "margin-left" := CssPx (Num 8); "margin-right" := CssPx (Num 8) ]}
    ∅ 0 1000 2000 1000 scrollTop [].

Definition sampleWindow : Window.t :=
  Window.mk true true [] 1 (ViewPaneSize.mk (Num 1024)) (sampleBody 0).

Definition sampleNativeEvent : NativeEvent.t :=
  NativeEvent.mk (Some 30) None.

Definition sampleEvent (direction : Direction) : EditorEvent.t :=
  EditorEvent.mk
    (Some (EventPayload.mk (Some sampleNativeEvent)
                           (Some (sampleSelection direction)))).

Definition sampleProps (direction : Direction) : Props.t :=
  Props.mk (Some (sampleEvent direction)) (Gutter.mk 0 10) true
           (Some (sampleSelection direction)).

(** A mounted, hidden widget with a pending interaction. *)
Definition sampleWidget (direction : Direction) : Widget.t :=
  Widget.mk (sampleProps direction) None (Some sampleNode) None sampleWindow.

(** The event that carries both the native event and the selection. *)
Definition eventOf (nativeEvent : option NativeEvent.t)
    (selectionData : option SelectionData.t) : option EditorEvent.t :=
  Some (EditorEvent.mk (Some (EventPayload.mk nativeEvent selectionData))).


(** An event target that scrolls its own content. *)
Definition scrollableTarget : Element.t :=
  Element.mk "DIV" {[ "overflow" := CssText "auto" ]} ∅ ∅ 10 300 20 300 0 [].

(** A keyboard-driven selection whose payload has no native event. *)
Definition eventWithoutNative : option EditorEvent.t :=
  eventOf None (Some (sampleSelection SELECTION_TOP_TO_BOTTOM)).


(** A selection on a single line, reported as TOP_TO_BOTTOM. *)
Definition singleLineSelection : SelectionData.t :=
  SelectionData.mk
    (Region.mk 100 120 10 50 40 20 SELECTION_TOP_TO_BOTTOM
       (Some (Rect.mk 10 100 30 120)) (Some (Rect.mk 30 100 50 120))).

(** The sample widget when no interaction is pending. *)
Definition idleWidget : Widget.t :=
  Widget.mk (Props.mk None (Gutter.mk 0 10) true None)
            None (Some sampleNode) None sampleWindow.




(** The left and top the widget's node carries, as numbers. *)
Definition styledAt (this : Widget.t) : option (num * num) :=
  (fun node => (parseFloat (Element.getStyle node "left"),
                parseFloat (Element.getStyle node "top")))
    <$> Widget.domNode this.

(** The inline styles and the classes of the widget's node. *)
Definition appearance (this : Widget.t)
    : option (gmap string CssValue * gset string) :=
  (fun node => (Element.style node, Element.classes node))
    <$> Widget.domNode this.

(** The top coordinate from which [show] starts the transition: the
    bottom or the top of the selection held in the props, moved by the
    scroll position of the UI node. *)
Definition showStartTop (this : Widget.t) : option num :=
  match getInteractionPoint (Props.editorEvent (Widget.props this)),
        Props.selectionData (Widget.props this) with
  | Ok (Some p), Some sd =>
      let scrollTop := from_option Element.scrollTop 0 (Widget.uiNode this) in
      let region := SelectionData.region sd in
      Some (if decide (InteractionPoint.direction p = SELECTION_TOP_TO_BOTTOM)
            then Num (Region.bottom region + scrollTop)
            else Num (Region.top region + scrollTop))
  | _, _ => None
  end.

(** ** The environment: the end of a transition

    When the CSS transition of the node ends the browser calls the
    handlers registered for ['transitionend'], in the order of their
    registration.  The handler of [moveToPoint] clears the inline
    [pointerEvents]. *)

Definition runListener (l : Listener) (node : Element.t) : Element.t :=
  match l with
  | ClearPointerEvents =>
      Element.setStyles [("pointerEvents", CssText "")] node
  end.

Definition dispatch (ev : string) (node : Element.t) : Element.t :=
  foldl (fun n l => if bool_decide (fst l = ev) then runListener (snd l) n else n)
        node (Element.listeners node).

Definition transitionEnd (this : Widget.t) : Widget.t :=
  Widget.with_domNode (dispatch "transitionend") this.

(** ** Runs of the component

    What can happen to one widget, in any order: a call of one of its
    methods, a paint, the end of a transition. *)
Inductive Step : Type :=
| DoCall (c : Call)
| DoUpdatePosition
| DoCancelAnimation
| DoAnimationFrame
| DoTransitionEnd.

Definition step (s : Step) (this : Widget.t) : result Widget.t :=
  match s with
  | DoCall c => call c this
  | DoUpdatePosition => updatePosition this
  | DoCancelAnimation => Ok (cancelAnimation this)
  | DoAnimationFrame => Ok (animationFrame this)
  | DoTransitionEnd => Ok (transitionEnd this)
  end.

Fixpoint steps (ss : list Step) (this : Widget.t) : result Widget.t :=
  match ss with
  | [] => Ok this
  | s :: ss => this' ← step s this; steps ss this'
  end.

(** The handles of the browser are fresh: every pending request has a
    handle below the next one to be given out. *)
Definition handlesFresh (this : Widget.t) : Prop :=
  Forall (fun f => (fst f < Window.nextHandle (Widget.window this))%nat)
         (Window.pending (Widget.window this)).

(** The same widget in a browser without [requestAnimationFrame]. *)
Definition withoutFrames (this : Widget.t) : Widget.t :=
  let win := Widget.window this in
  Widget.mk (Widget.props this) (Widget.uiNode this) (Widget.domNode this)
            (Widget._animationFrameId this)
            (Window.mk false (Window.cancelAnimationFrame win)
                       (Window.pending win) (Window.nextHandle win)
                       (Window.viewPaneSize win) (Window.body win)).

(** The listeners registered on the widget's node. *)
Definition listenersOf (this : Widget.t) : list (string * Listener) :=
  from_option Element.listeners [] (Widget.domNode this).

(** Whether the widget's node carries a class. *)
Definition carries (c : string) (this : Widget.t) : bool :=
  from_option (fun node => Element.hasClass node c) false (Widget.domNode this).

(** The sample widget before it is mounted. *)
Definition unmountedWidget : Widget.t :=
  Widget.mk (sampleProps SELECTION_TOP_TO_BOTTOM) None None None sampleWindow.

(** The sample widget whose props hold no selection data. *)
Definition widgetWithoutSelection : Widget.t :=
  Widget.mk
    (Props.mk (Some (sampleEvent SELECTION_TOP_TO_BOTTOM)) (Gutter.mk 0 10)
              true None)
    None (Some sampleNode) None sampleWindow.

(** The classes of the widget's node; none while it is not mounted. *)
Definition classesOf (this : Widget.t) : gset string :=
  from_option Element.classes ∅ (Widget.domNode this).

(** How the component may change the classes of its node: it may drop the
    invisible marker and add the transition and the visible markers, and
    nothing else. *)
Definition markersOnly (before after : gset string) : Prop :=
  before ∖ {[ "alloy-editor-invisible"%string ]} ⊆ after
  /\ after ⊆ before ∪ {[ "ae-toolbar-transition"%string ]}
                    ∪ {[ "alloy-editor-visible"%string ]}.

(** ** The button that aligns an image on the left (ButtonImageAlignLeft)

    The state classes come from [getStateClasses] of the
    [ButtonStateClasses] mixin and the label from [AlloyEditor.Strings],
    both outside the sources at hand: [render] takes them as arguments.
    The click handler [execCommand], of the [ButtonCommand] mixin, is left
    out of the rendered element. *)

Module ButtonImageAlignLeft.

(** [hay.indexOf(needle)]: the index of the first occurrence, or -1. *)
Fixpoint indexOf (needle hay : string) : Z :=
  if String.prefix needle hay then 0%Z
  else
    match hay with
    | EmptyString => (-1)%Z
    | String _ rest =>
        let i := indexOf needle rest in
        if (i =? -1)%Z then (-1)%Z else (i + 1)%Z
    end.

Record Button : Type := mkButton
  { ariaLabel : string;
    ariaPressed : bool;
    className : string;
    dataType : string;
    tabIndex : option Z;
    title : string;
    iconSymbol : string }.

Definition command : string := "justifyleft".

Definition key : string := "imageLeft".

Definition render (stateClasses alignLeft : string) (tabIndex : option Z)
    : Button :=
  let cssClass := String.append "ae-button " stateClasses in
  mkButton alignLeft
           (negb (indexOf "pressed" cssClass =? -1)%Z)
           cssClass
           "button-image-align-left"
           tabIndex
           alignLeft
           "align-image-left".

End ButtonImageAlignLeft.

(** A text occurs in another one. *)
Definition occursIn (needle hay : string) : Prop :=
  exists pre post : string,
    hay = String.append pre (String.append needle post).




(** * Properties *)

(** ** Comparisons *)

Lemma Qltb_lt (x y : Q) : JS.Qltb x y = true <-> x < y.
Proof.
  unfold JS.Qltb. rewrite Qlt_alt.
  destruct (x ?= y); split; congruence.
Qed.

Lemma Qltb_ge (x y : Q) : JS.Qltb x y = false <-> ~ x < y.
Proof.
  rewrite <- Qltb_lt. destruct (JS.Qltb x y); split; congruence.
Qed.

Lemma Qeqb_eq (x y : Q) : JS.Qeqb x y = true <-> x == y.
Proof. apply Qeq_bool_iff. Qed.


(** The clamp at zero of the source is the maximum with zero. *)
Lemma floor_at_zero (v : Q) : (if JS.Qltb v 0 then 0 else v) = Qmax v 0.
Proof.
  unfold JS.Qltb, Qmax, GenericMinMax.gmax. now destruct (v ?= 0).
Qed.

(** ** The X-edge heuristic *)

Lemma getXPoint_inside (sd : SelectionData.t) (x : Q) :
  let region := SelectionData.region sd in
  edgeLeft region < x -> x < edgeRight region -> _getXPoint sd x = x.
Proof.
  intros region Hl Hr. unfold _getXPoint.
  fold region. unfold edgeLeft, edgeRight, from_option in Hl, Hr.
  apply Qltb_lt in Hl, Hr.
  destruct (Region.startRect region), (Region.endRect region);
    now rewrite Hl, Hr.
Qed.

Lemma getXPoint_outside (sd : SelectionData.t) (x : Q) :
  let region := SelectionData.region sd in
  ~ (edgeLeft region < x /\ x < edgeRight region) ->
  _getXPoint sd x =
    if JS.Qltb (Qabs (edgeLeft region - x)) (Qabs (edgeRight region - x))
    then edgeLeft region else edgeRight region.
Proof.
  intros region Hout. unfold _getXPoint. fold region.
  change (match Region.startRect region with
          | Some r => Rect.left r
          | None => Region.left region
          end) with (edgeLeft region).
  change (match Region.endRect region with
          | Some r => Rect.right r
          | None => Region.right region
          end) with (edgeRight region).
  destruct (JS.Qltb (edgeLeft region) x) eqn:Hl;
    destruct (JS.Qltb x (edgeRight region)) eqn:Hr; simpl; try reflexivity.
  exfalso. apply Hout. split; now apply Qltb_lt.
Qed.



(** ** The viewport constraint *)

(** C5, as amended.  For a rectangle and a supplied viewport,
    [getConstrainedPosition] returns [x = left - (left + width -
    viewport.width)] when [left + width > viewport.width] and [x = left]
    otherwise, and [y = max(top, 0)].  Only the right edge is clamped, so
    [x] can be negative.  The result depends on the two arguments alone:
    the ambient view pane plays no part when a viewport is supplied.  The
    rectangle [{left:100, top:-5, width:50}] in a viewport of width 120 is
    placed at [x = 100 - (100 + 50 - 120) = 70], [y = 0]. *)
Theorem getConstrainedPosition_spec (left top width height vw : Q) :
  let attrs := Attrs.mk (Num height) (Num left) (Num top) (Num width) in
  let viewport := ViewPaneSize.mk (Num vw) in
  forall ambient : ViewPaneSize.t,
    let res := getConstrainedPosition ambient attrs (Some viewport) in
    (left + width > vw -> Position.x res = Num (left - (left + width - vw))) /\
    (~ left + width > vw -> Position.x res = Num left) /\
    Position.y res = Num (Qmax top 0) /\
    (forall ambient' : ViewPaneSize.t,
       getConstrainedPosition ambient' attrs (Some viewport) = res) /\
    (left == 100 -> top == -5 -> width == 50 -> vw == 120 ->
       JS.num_eq (Position.x res) (Num 70) /\ JS.num_eq (Position.y res) (Num 0)) /\
    (left == 10 -> width == 200 -> vw == 100 ->
       JS.num_eq (Position.x res) (Num (-100))).
Proof.
  intros attrs viewport ambient res.
  assert (Hx : Position.x res =
               if JS.Qltb vw (left + width)
               then Num (left - (left + width - vw)) else Num left).
  { unfold res, getConstrainedPosition, JS.gtb. simpl.
    now destruct (JS.Qltb vw (left + width)). }
  assert (Hy : Position.y res = Num (Qmax top 0)).
  { unfold res, getConstrainedPosition. simpl.
    rewrite <- floor_at_zero. now destruct (JS.Qltb top 0). }
  repeat split.
  - intros H. apply Qltb_lt in H. now rewrite Hx, H.
  - intros H. apply Qltb_ge in H. now rewrite Hx, H.
  - exact Hy.
  - rewrite Hx.
    assert (H' : vw < left + width) by lra.
    apply Qltb_lt in H'. rewrite H'. simpl. lra.
  - rewrite Hy. simpl. now rewrite H0.
  - intros Hl Hw Hv. rewrite Hx.
    assert (H' : vw < left + width) by lra.
    apply Qltb_lt in H'. rewrite H'. simpl. lra.
Qed.

Lemma getConstrainedPosition_spec_witness :
  let res := getConstrainedPosition (ViewPaneSize.mk NaN)
               (Attrs.mk (Num 20) (Num 100) (Num (-5)) (Num 50))
               (Some (ViewPaneSize.mk (Num 120))) in
  JS.num_eq (Position.x res) (Num 70) /\ JS.num_eq (Position.y res) (Num 0).
Proof.
  intros res.
  destruct (getConstrainedPosition_spec 100 (-5) 50 20 120 (ViewPaneSize.mk NaN))
    as (_ & _ & _ & _ & H & _).
  apply H; reflexivity.
Defined.

(** The example of the claim does not hold: at [{left:100, top:-5,
    width:50}] and a viewport of width 120 the overflow is 30 and [x] is
    70, not 90. *)
Lemma getConstrainedPosition_example_not_90 :
  let res := getConstrainedPosition (ViewPaneSize.mk (Num 1024))
               (Attrs.mk (Num 20) (Num 100) (Num (-5)) (Num 50))
               (Some (ViewPaneSize.mk (Num 120))) in
  JS.num_eq (Position.x res) (Num 70) /\
  JS.num_eq (Position.y res) (Num 0) /\
  ~ JS.num_eq (Position.x res) (Num 90).
Proof.
  vm_compute. repeat split; discriminate.
Qed.

(** ** Placement next to the anchor *)

Lemma getWidgetXYPoint_mounted (this : Widget.t) (node : Element.t)
    (left top : Q) (direction : Direction) :
  Widget.domNode this = Some node ->
  let gutter := Props.gutter (Widget.props this) in
  let width := Element.offsetWidth node in
  let height := Element.offsetHeight node in
  getWidgetXYPoint this left top direction =
    match direction with
    | SELECTION_TOP_TO_BOTTOM =>
        Ok (Qmax (left - Gutter.left gutter - width / 2) 0,
            Qmax (top + Gutter.top gutter) 0)
    | SELECTION_BOTTOM_TO_TOP =>
        Ok (Qmax (left - Gutter.left gutter - width / 2) 0,
            Qmax (top - height - Gutter.top gutter) 0)
    | SELECTION_LEFT_TO_RIGHT =>
        Ok (Qmax (left + Gutter.left gutter + height / 2) 0,
            Qmax (top - Gutter.top gutter - height / 2) 0)
    | SELECTION_RIGHT_TO_LEFT =>
        Ok (Qmax (left - (3 * height) / 2 - Gutter.left gutter) 0,
            Qmax (top - Gutter.top gutter - height / 2) 0)
    | SELECTION_NONE => Ok (Qmax left 0, Qmax top 0)
    end.
Proof.
  intros Hnode gutter width height.
  unfold getWidgetXYPoint. rewrite Hnode.
  destruct direction; simpl; now rewrite !floor_at_zero.
Qed.

(** C6.  On a mounted widget of size [width] by [height],
    [getWidgetXYPoint] returns, for TOP_TO_BOTTOM and BOTTOM_TO_TOP,
    [left = anchorX - gutter.left - width/2] with [top = anchorY +
    gutter.top] and [top = anchorY - height - gutter.top] respectively; for
    LEFT_TO_RIGHT [left = anchorX + gutter.left + height/2] and for
    RIGHT_TO_LEFT [left = anchorX - (3 height)/2 - gutter.left], each with
    [top = anchorY - gutter.top - height/2]; for no direction the anchor
    itself; and in every case each coordinate is floored at 0.  For
    TOP_TO_BOTTOM, anchor (100, 50), a widget of 80 by 20 and the gutter
    [{left:0, top:10}] the result is [[60, 60]]. *)
Theorem getWidgetXYPoint_spec (this : Widget.t) (node : Element.t)
    (anchorX anchorY : Q) :
  Widget.domNode this = Some node ->
  let gutter := Props.gutter (Widget.props this) in
  let width := Element.offsetWidth node in
  let height := Element.offsetHeight node in
  let floored (l t : Q) : result (Q * Q) := Ok (Qmax l 0, Qmax t 0) in
  getWidgetXYPoint this anchorX anchorY SELECTION_TOP_TO_BOTTOM
    = floored (anchorX - Gutter.left gutter - width / 2)
              (anchorY + Gutter.top gutter) /\
  getWidgetXYPoint this anchorX anchorY SELECTION_BOTTOM_TO_TOP
    = floored (anchorX - Gutter.left gutter - width / 2)
              (anchorY - height - Gutter.top gutter) /\
  getWidgetXYPoint this anchorX anchorY SELECTION_LEFT_TO_RIGHT
    = floored (anchorX + Gutter.left gutter + height / 2)
              (anchorY - Gutter.top gutter - height / 2) /\
  getWidgetXYPoint this anchorX anchorY SELECTION_RIGHT_TO_LEFT
    = floored (anchorX - (3 * height) / 2 - Gutter.left gutter)
              (anchorY - Gutter.top gutter - height / 2) /\
  getWidgetXYPoint this anchorX anchorY SELECTION_NONE
    = floored anchorX anchorY /\
  (forall direction : Direction,
     exists left top : Q,
       getWidgetXYPoint this anchorX anchorY direction = Ok (left, top)
       /\ 0 <= left /\ 0 <= top) /\
  (anchorX == 100 -> anchorY == 50 -> width == 80 -> height == 20 ->
   Gutter.left gutter == 0 -> Gutter.top gutter == 10 ->
   exists left top : Q,
     getWidgetXYPoint this anchorX anchorY SELECTION_TOP_TO_BOTTOM
       = Ok (left, top)
     /\ left == 60 /\ top == 60).
Proof.
  intros Hnode gutter width height floored.
  pose proof (fun d => getWidgetXYPoint_mounted this node anchorX anchorY d Hnode)
    as Heq.
  repeat split; try apply Heq.
  - intros direction. specialize (Heq direction).
    destruct direction; simpl in Heq; rewrite Heq;
      eexists _, _; (split; [reflexivity |]); split; apply Q.le_max_r.
  - intros Hx Hy Hw Hh Hgl Hgt. rewrite (Heq SELECTION_TOP_TO_BOTTOM).
    eexists _, _. split; [reflexivity |].
    fold width height gutter. split.
    + rewrite Hx, Hw, Hgl. reflexivity.
    + rewrite Hy, Hgt. reflexivity.
Qed.

Lemma getWidgetXYPoint_spec_witness :
  exists left top : Q,
    getWidgetXYPoint (sampleWidget SELECTION_TOP_TO_BOTTOM) 100 50
                     SELECTION_TOP_TO_BOTTOM = Ok (left, top)
    /\ left == 60 /\ top == 60.
Proof.
  destruct (getWidgetXYPoint_spec (sampleWidget SELECTION_TOP_TO_BOTTOM)
              sampleNode 100 50 eq_refl) as (_ & _ & _ & _ & _ & _ & H).
  apply H; reflexivity.
Defined.

(** ** The interaction-point resolver *)



(** With both parts of the payload present the resolver returns a point. *)
Lemma getInteractionPoint_total (ne : NativeEvent.t) (sd : SelectionData.t) :
  exists p : InteractionPoint.t,
    getInteractionPoint (eventOf (Some ne) (Some sd)) = Ok (Some p)
    /\ InteractionPoint.direction p = resolvedDirection (SelectionData.region sd).
Proof.
  unfold getInteractionPoint. simpl.
  destruct (NativeEvent.pageX ne) as [px |]; [| eauto].
  destruct (JS.truthy px && JS.truthy (Region.top (SelectionData.region sd)));
    eauto.
Qed.





(** C4.  When the region has both a start and an end rectangle and their
    tops are equal, every interaction point the resolver returns has the
    direction BOTTOM_TO_TOP, whatever direction the region reports; and
    the resolver does return a point when the native event is present. *)
Theorem single_line_direction (payload : EventPayload.t)
    (sd : SelectionData.t) (startRect endRect : Rect.t) :
  EventPayload.selectionData payload = Some sd ->
  Region.startRect (SelectionData.region sd) = Some startRect ->
  Region.endRect (SelectionData.region sd) = Some endRect ->
  Rect.top startRect == Rect.top endRect ->
  let event := Some (EditorEvent.mk (Some payload)) in
  (forall p : InteractionPoint.t,
     getInteractionPoint event = Ok (Some p) ->
     InteractionPoint.direction p = SELECTION_BOTTOM_TO_TOP) /\
  (forall ne : NativeEvent.t,
     EventPayload.nativeEvent payload = Some ne ->
     exists p : InteractionPoint.t,
       getInteractionPoint event = Ok (Some p)
       /\ InteractionPoint.direction p = SELECTION_BOTTOM_TO_TOP).
Proof.
  intros Hsd Hstart Hend Htop event.
  assert (Hdir : resolvedDirection (SelectionData.region sd)
                 = SELECTION_BOTTOM_TO_TOP).
  { unfold resolvedDirection. rewrite Hstart, Hend.
    apply Qeqb_eq in Htop. now rewrite Htop. }
  destruct payload as [nativeEvent selectionData]. simpl in Hsd. subst.
  split.
  - intros p Hp. destruct nativeEvent as [ne |]; [| discriminate Hp].
    destruct (getInteractionPoint_total ne sd) as (q & Hq & Hqd).
    unfold event, eventOf in *. rewrite Hq in Hp.
    injection Hp as <-. now rewrite Hqd.
  - intros ne [= ->].
    destruct (getInteractionPoint_total ne sd) as (q & Hq & Hqd).
    exists q. split; [exact Hq | now rewrite Hqd].
Qed.

Lemma single_line_direction_witness :
  exists p : InteractionPoint.t,
    getInteractionPoint
      (Some (EditorEvent.mk
               (Some (EventPayload.mk (Some sampleNativeEvent)
                                      (Some singleLineSelection)))))
      = Ok (Some p)
    /\ InteractionPoint.direction p = SELECTION_BOTTOM_TO_TOP.
Proof.
  destruct (single_line_direction
              (EventPayload.mk (Some sampleNativeEvent) (Some singleLineSelection))
              singleLineSelection (Rect.mk 10 100 30 120) (Rect.mk 30 100 50 120)
              eq_refl eq_refl eq_refl) as [_ H].
  - reflexivity.
  - apply (H sampleNativeEvent). reflexivity.
Defined.

(** C10.  The resolver reads [pageX] through the native event before any
    of its branches on the pointer: a payload without a native event makes
    it fail with a [TypeError], whether or not the selection data is there,
    instead of taking the branch without a pointer; with the native event
    and the selection data present it always returns a point. *)
Theorem getInteractionPoint_needs_nativeEvent :
  (forall selectionData : option SelectionData.t,
     getInteractionPoint (eventOf None selectionData) = TypeError) /\
  (forall (ne : NativeEvent.t) (sd : SelectionData.t),
     exists p : InteractionPoint.t,
       getInteractionPoint (eventOf (Some ne) (Some sd)) = Ok (Some p)).
Proof.
  split.
  - reflexivity.
  - intros ne sd. destruct (getInteractionPoint_total ne sd) as (p & Hp & _).
    now exists p.
Qed.

(** C9.  When the editor event, or its payload, is absent the resolver
    returns no point.  It is a function of the event alone and leaves the
    widget as it is; its callers [show] and [updatePosition] then skip
    their update and return normally, with the widget unchanged. *)
Theorem absent_event_gives_no_point (this : Widget.t) :
  Props.editorEvent (Widget.props this) ≫= EditorEvent.data = None ->
  getInteractionPoint (Props.editorEvent (Widget.props this)) = Ok None
  /\ show this = Ok this
  /\ updatePosition this = Ok this.
Proof.
  intros Habsent.
  assert (Hnone : getInteractionPoint (Props.editorEvent (Widget.props this))
                  = Ok None).
  { unfold getInteractionPoint. now rewrite Habsent. }
  split; [exact Hnone |]. split.
  - unfold show. rewrite Hnone.
    destruct (negb (isVisible this)), (Widget.domNode this); reflexivity.
  - unfold updatePosition. rewrite Hnone. reflexivity.
Qed.

Lemma absent_event_gives_no_point_witness :
  getInteractionPoint (Props.editorEvent (Widget.props idleWidget)) = Ok None
  /\ show idleWidget = Ok idleWidget
  /\ updatePosition idleWidget = Ok idleWidget.
Proof.
  apply (absent_event_gives_no_point idleWidget). reflexivity.
Defined.

(** ** Repositioning *)






(** ** Visibility and transitions *)

Lemma runFrameCallback_domNode (cb : FrameCallback) (this : Widget.t) :
  Widget.domNode this <> None ->
  Widget.domNode (runFrameCallback cb this) <> None.
Proof.
  destruct cb. unfold runFrameCallback, Widget.with_domNode. simpl.
  now destruct (Widget.domNode this).
Qed.

Lemma runFrameCallback_visible (cb : FrameCallback) (this : Widget.t) :
  Widget.domNode this <> None ->
  isVisible (runFrameCallback cb this) = true.
Proof.
  destruct cb. unfold isVisible, runFrameCallback, Widget.with_domNode. simpl.
  destruct (Widget.domNode this) as [node |]; [intros _ | congruence].
  simpl. unfold Element.hasClass. simpl.
  apply bool_decide_eq_true_2. set_solver.
Qed.

Lemma runFrameCallback_stays_visible (cb : FrameCallback) (this : Widget.t) :
  isVisible this = true -> isVisible (runFrameCallback cb this) = true.
Proof.
  intros Hvis. apply runFrameCallback_visible.
  unfold isVisible in Hvis. now destruct (Widget.domNode this).
Qed.

Lemma runFrameCallback_frame (cb : FrameCallback) (this : Widget.t) :
  Widget.props (runFrameCallback cb this) = Widget.props this
  /\ Widget.uiNode (runFrameCallback cb this) = Widget.uiNode this
  /\ Widget.window (runFrameCallback cb this) = Widget.window this
  /\ (Widget.domNode this = None ->
        Widget.domNode (runFrameCallback cb this) = None).
Proof.
  destruct cb. unfold runFrameCallback, Widget.with_domNode. simpl.
  repeat split. now intros ->.
Qed.

Lemma runCallbacks_frame (fs : list (nat * FrameCallback)) (this : Widget.t) :
  Widget.props (runCallbacks fs this) = Widget.props this
  /\ Widget.window (runCallbacks fs this) = Widget.window this
  /\ (Widget.domNode this = None -> Widget.domNode (runCallbacks fs this) = None)
  /\ (Widget.domNode this <> None -> Widget.domNode (runCallbacks fs this) <> None)
  /\ (isVisible this = true -> isVisible (runCallbacks fs this) = true).
Proof.
  revert this. induction fs as [| f fs IH]; intros this.
  - cbn. tauto.
  - change (runCallbacks (f :: fs) this)
      with (runCallbacks fs (runFrameCallback (snd f) this)).
    destruct (IH (runFrameCallback (snd f) this)) as (Hp & Hw & Hn & Hs & Hv).
    destruct (runFrameCallback_frame (snd f) this) as (Hp' & _ & Hw' & Hn').
    repeat split.
    + now rewrite Hp.
    + now rewrite Hw.
    + intros H. apply Hn, Hn', H.
    + intros H. apply Hs. now apply runFrameCallback_domNode.
    + intros H. apply Hv. now apply runFrameCallback_stays_visible.
Qed.

Lemma runCallbacks_make_visible (fs : list (nat * FrameCallback))
    (this : Widget.t) :
  fs <> [] -> Widget.domNode this <> None ->
  isVisible (runCallbacks fs this) = true.
Proof.
  destruct fs as [| f fs]; [congruence | intros _ Hnode].
  change (runCallbacks (f :: fs) this)
    with (runCallbacks fs (runFrameCallback (snd f) this)).
  apply runCallbacks_frame. now apply runFrameCallback_visible.
Qed.

Lemma animationFrame_frame (this : Widget.t) :
  Widget.props (animationFrame this) = Widget.props this
  /\ (Widget.domNode this = None -> Widget.domNode (animationFrame this) = None)
  /\ (isVisible this = true -> isVisible (animationFrame this) = true)
  /\ (Window.pending (Widget.window this) <> [] ->
      Widget.domNode this <> None -> isVisible (animationFrame this) = true)
  /\ outstanding (animationFrame this) = [].
Proof.
  unfold animationFrame.
  set (this0 := Widget.mk _ _ _ _ _).
  destruct (runCallbacks_frame (Window.pending (Widget.window this)) this0)
    as (Hp & Hw & Hn & _ & Hv).
  repeat split.
  - exact Hp.
  - exact Hn.
  - exact Hv.
  - intros Hpending Hnode. now apply runCallbacks_make_visible.
  - unfold outstanding. now rewrite Hw.
Qed.

(** [_animate] requests a frame and records its handle; nothing that is
    pending is cancelled. *)
Lemma animate_requests (cb : FrameCallback) (this : Widget.t) :
  Window.requestAnimationFrame (Widget.window this) = true ->
  let this' := _animate cb this in
  Window.pending (Widget.window this')
    = Window.pending (Widget.window this)
        ++ [(Window.nextHandle (Widget.window this), cb)]
  /\ Widget._animationFrameId this'
     = Some (Window.nextHandle (Widget.window this))
  /\ Window.nextHandle (Widget.window this')
     = S (Window.nextHandle (Widget.window this))
  /\ Widget.domNode this' = Widget.domNode this.
Proof.
  intros Hraf. unfold _animate. rewrite Hraf. simpl. tauto.
Qed.

Lemma animate_immediate (cb : FrameCallback) (this : Widget.t) :
  Window.requestAnimationFrame (Widget.window this) = false ->
  _animate cb this = runFrameCallback cb this.
Proof.
  intros Hraf. unfold _animate. now rewrite Hraf.
Qed.

Lemma moveToPoint_result (startPoint endPoint : num * num)
    (this this' : Widget.t) :
  moveToPoint startPoint endPoint this = Ok this' ->
  Widget.props this' = Widget.props this
  /\ Window.requestAnimationFrame (Widget.window this')
     = Window.requestAnimationFrame (Widget.window this)
  /\ Widget.domNode this <> None
  /\ Widget.domNode this' <> None
  /\ (Window.requestAnimationFrame (Widget.window this) = true ->
        Window.pending (Widget.window this')
          = Window.pending (Widget.window this)
              ++ [(Window.nextHandle (Widget.window this),
                   TransitionTo endPoint)]
        /\ Widget._animationFrameId this'
           = Some (Window.nextHandle (Widget.window this)))
  /\ (Window.requestAnimationFrame (Widget.window this) = false ->
        Window.pending (Widget.window this')
          = Window.pending (Widget.window this)
        /\ isVisible this' = true).
Proof.
  unfold moveToPoint.
  destruct (Widget.domNode this) as [node |] eqn:Hnode; [| discriminate].
  simpl. intros [= <-].
  unfold _animate. simpl.
  destruct (Window.requestAnimationFrame (Widget.window this)) eqn:Hraf;
    simpl; rewrite ?Hnode, ?Hraf; simpl.
  - repeat split; congruence.
  - repeat split; try congruence.
    unfold isVisible. simpl. rewrite Hnode. simpl.
    unfold Element.hasClass. simpl.
    apply bool_decide_eq_true_2. set_solver.
Qed.

Lemma moveToPoint_mounted (startPoint endPoint : num * num) (this : Widget.t) :
  Widget.domNode this <> None ->
  exists this' : Widget.t, moveToPoint startPoint endPoint this = Ok this'.
Proof.
  unfold moveToPoint.
  destruct (Widget.domNode this); [eauto | congruence].
Qed.

(** What a call of [show] that returns has done: nothing, or one
    [moveToPoint] on a widget that was mounted and not visible. *)
Lemma show_cases (this this' : Widget.t) :
  show this = Ok this' ->
  (this' = this
   /\ (isVisible this = true
       \/ Widget.domNode this = None
       \/ getInteractionPoint (Props.editorEvent (Widget.props this))
          = Ok None))
  \/ (isVisible this = false
      /\ exists startPoint endPoint : num * num,
           moveToPoint startPoint endPoint this = Ok this').
Proof.
  unfold show.
  destruct (isVisible this) eqn:Hvis; simpl.
  { intros [= <-]. left. tauto. }
  destruct (Widget.domNode this) as [node |]; [| intros [= <-]; left; tauto].
  destruct (getInteractionPoint _) as [[p |] |]; simpl;
    [| intros [= <-]; left; tauto | discriminate].
  destruct (Props.selectionData _) as [sd |]; simpl; [| discriminate].
  intros Hmove. right. split; [reflexivity |]. eauto.
Qed.

Lemma show_noop (this : Widget.t) :
  isVisible this = true \/ Widget.domNode this = None ->
  show this = Ok this.
Proof.
  unfold show. intros [Hvis | Hnode].
  - now rewrite Hvis.
  - rewrite Hnode. now destruct (negb (isVisible this)).
Qed.

Lemma show_skips_without_point (this : Widget.t) :
  getInteractionPoint (Props.editorEvent (Widget.props this)) = Ok None ->
  show this = Ok this.
Proof.
  intros Hnone. unfold show. rewrite Hnone.
  destruct (negb (isVisible this)), (Widget.domNode this); reflexivity.
Qed.

Lemma call_keeps_pending (c : Call) (this this' : Widget.t) :
  call c this = Ok this' ->
  exists new : list (nat * FrameCallback),
    Window.pending (Widget.window this')
      = Window.pending (Widget.window this) ++ new
    /\ (length new <= 1)%nat.
Proof.
  assert (Hmove : forall s e : num * num,
             moveToPoint s e this = Ok this' ->
             exists new : list (nat * FrameCallback),
               Window.pending (Widget.window this')
                 = Window.pending (Widget.window this) ++ new
               /\ (length new <= 1)%nat).
  { intros s e Hm.
    destruct (moveToPoint_result s e this this' Hm)
      as (_ & _ & _ & _ & Hreq & Himm).
    destruct (Window.requestAnimationFrame (Widget.window this)).
    - destruct (Hreq eq_refl) as [Hp _]. eexists. split; [exact Hp |].
      simpl. lia.
    - destruct (Himm eq_refl) as [Hp _]. exists []. rewrite app_nil_r.
      split; [exact Hp | simpl; lia]. }
  destruct c as [| s e]; simpl; [| apply Hmove].
  intros Hshow. destruct (show_cases this this' Hshow)
    as [[-> _] | (_ & s & e & Hm)].
  - exists []. rewrite app_nil_r. split; [reflexivity | simpl; lia].
  - now apply (Hmove s e).
Qed.

Lemma calls_keep_pending (cs : list Call) (this this' : Widget.t) :
  calls cs this = Ok this' ->
  exists new : list (nat * FrameCallback),
    Window.pending (Widget.window this')
      = Window.pending (Widget.window this) ++ new
    /\ (length new <= length cs)%nat.
Proof.
  revert this. induction cs as [| c cs IH]; intros this; simpl.
  - intros [= <-]. exists []. now rewrite app_nil_r.
  - destruct (call c this) as [mid |] eqn:Hc; [| discriminate]. simpl.
    intros Hrest.
    destruct (call_keeps_pending c this mid Hc) as (new1 & H1 & Hl1).
    destruct (IH mid Hrest) as (new2 & H2 & Hl2).
    exists (new1 ++ new2). rewrite H2, H1, <- app_assoc.
    split; [reflexivity |]. rewrite length_app. lia.
Qed.

Lemma fst_filter_pending (P : nat -> Prop) `{!forall h, Decision (P h)}
    (fs : list (nat * FrameCallback)) :
  fst <$> filter (fun f => P (fst f)) fs = filter P (fst <$> fs).
Proof.
  induction fs as [| f fs IH]; [reflexivity |].
  rewrite fmap_cons, !filter_cons.
  destruct (decide (P (fst f))); [rewrite fmap_cons |]; now rewrite IH.
Qed.

Lemma outstanding_cancelAnimation (this : Widget.t) :
  outstanding (cancelAnimation this) =
    if Window.cancelAnimationFrame (Widget.window this)
    then filter (fun h => Some h ≠ Widget._animationFrameId this)
                (outstanding this)
    else outstanding this.
Proof.
  unfold cancelAnimation, outstanding.
  destruct (Window.cancelAnimationFrame (Widget.window this)); [| reflexivity].
  simpl.
  exact (fst_filter_pending
           (fun h => Some h ≠ Widget._animationFrameId this) _).
Qed.

(** C1, as amended.  The controller does not cancel before it schedules.
    [_animate], when [requestAnimationFrame] is available, adds the new
    request to those that are pending and records its handle in
    [_animationFrameId]; a [moveToPoint] on a mounted widget therefore adds
    exactly one outstanding handle; over any sequence of [show] and
    [moveToPoint] calls the handles that were outstanding stay
    outstanding, and at most one is added per call.  Only an explicit
    [cancelAnimation] cancels, and it cancels the handle recorded last. *)
Theorem frames_accumulate :
  (forall (cb : FrameCallback) (this : Widget.t),
     Window.requestAnimationFrame (Widget.window this) = true ->
     outstanding (_animate cb this)
       = outstanding this ++ [Window.nextHandle (Widget.window this)]
     /\ Widget._animationFrameId (_animate cb this)
        = Some (Window.nextHandle (Widget.window this))) /\
  (forall (startPoint endPoint : num * num) (this : Widget.t),
     Widget.domNode this <> None ->
     Window.requestAnimationFrame (Widget.window this) = true ->
     exists this' : Widget.t,
       moveToPoint startPoint endPoint this = Ok this'
       /\ outstanding this'
          = outstanding this ++ [Window.nextHandle (Widget.window this)]) /\
  (forall (cs : list Call) (this this' : Widget.t),
     calls cs this = Ok this' ->
     exists new : list nat,
       outstanding this' = outstanding this ++ new
       /\ (length new <= length cs)%nat) /\
  (forall this : Widget.t,
     outstanding (cancelAnimation this) =
       if Window.cancelAnimationFrame (Widget.window this)
       then filter (fun h => Some h ≠ Widget._animationFrameId this)
                   (outstanding this)
       else outstanding this).
Proof.
  split; [| split; [| split]].
  - intros cb this Hraf.
    destruct (animate_requests cb this Hraf) as (Hp & Hid & _).
    unfold outstanding. rewrite Hp, fmap_app. now split.
  - intros s e this Hnode Hraf.
    destruct (moveToPoint_mounted s e this Hnode) as [this' Hm].
    exists this'. split; [exact Hm |].
    destruct (moveToPoint_result s e this this' Hm)
      as (_ & _ & _ & _ & Hreq & _).
    destruct (Hreq Hraf) as [Hp _].
    unfold outstanding. now rewrite Hp, fmap_app.
  - intros cs this this' Hcalls.
    destruct (calls_keep_pending cs this this' Hcalls) as (new & Hp & Hl).
    exists (fst <$> new). unfold outstanding. rewrite Hp, fmap_app.
    split; [reflexivity |]. now rewrite length_fmap.
  - apply outstanding_cancelAnimation.
Qed.

Lemma frames_accumulate_witness :
  exists this' : Widget.t,
    moveToPoint (Num 0, Num 0) (Num 5, Num 5)
                (sampleWidget SELECTION_TOP_TO_BOTTOM) = Ok this'
    /\ outstanding this' = [1%nat].
Proof.
  destruct frames_accumulate as (_ & Hmove & _).
  apply (Hmove (Num 0, Num 0) (Num 5, Num 5)
               (sampleWidget SELECTION_TOP_TO_BOTTOM)).
  - discriminate.
  - reflexivity.
Defined.

(** Two calls of [show] before the next paint, on a mounted and hidden
    widget, leave two handles outstanding: the first request is not
    cancelled when the second is made.  Both callbacks run on the next
    paint. *)
Lemma two_handles_outstanding :
  exists this' : Widget.t,
    calls [CallShow; CallShow] (sampleWidget SELECTION_TOP_TO_BOTTOM)
      = Ok this'
    /\ outstanding this' = [1%nat; 2%nat]
    /\ ~ (length (outstanding this') <= 1)%nat
    /\ Widget._animationFrameId this' = Some 2%nat
    /\ outstanding (cancelAnimation this') = [1%nat].
Proof.
  eexists. split; [vm_compute; reflexivity |].
  vm_compute. repeat split. lia.
Qed.

(** The start point of the transition that [show] makes. *)
Lemma show_start (this this' : Widget.t) :
  show this = Ok this' ->
  this' = this
  \/ exists (node : Element.t) (top : num) (endPoint : num * num),
       Widget.domNode this = Some node
       /\ showStartTop this = Some top
       /\ moveToPoint (parseFloat (Element.getStyle node "left"), top)
                      endPoint this = Ok this'.
Proof.
  unfold show, showStartTop.
  destruct (isVisible this); simpl; [intros [= <-]; now left |].
  destruct (Widget.domNode this) as [node |]; [| intros [= <-]; now left].
  destruct (getInteractionPoint _) as [[p |] |]; simpl;
    [| intros [= <-]; now left | discriminate].
  destruct (Props.selectionData _) as [sd |]; simpl; [| discriminate].
  intros Hmove. right. exists node. eexists _, _.
  split; [reflexivity |]. split; [reflexivity |].
  destruct (Widget.uiNode this); simpl;
    destruct (decide (InteractionPoint.direction p = SELECTION_TOP_TO_BOTTOM));
    exact Hmove.
Qed.

(** The node after a [moveToPoint] whose callback waits for the frame. *)
Lemma moveToPoint_pending_node (startPoint endPoint : num * num)
    (this this' : Widget.t) (node : Element.t) :
  Widget.domNode this = Some node ->
  Window.requestAnimationFrame (Widget.window this) = true ->
  moveToPoint startPoint endPoint this = Ok this' ->
  Widget.uiNode this' = Widget.uiNode this
  /\ exists node' : Element.t,
       Widget.domNode this' = Some node'
       /\ Element.style node'
          = <[ "pointerEvents" := CssText "none" ]>
              (<[ "opacity" := CssNumber 0 ]>
                 (<[ "top" := CssPx (snd startPoint) ]>
                    (<[ "left" := CssPx (fst startPoint) ]>
                       (Element.style node))))
       /\ Element.classes node'
          = Element.classes node ∖ {[ "alloy-editor-invisible"%string ]}.
Proof.
  intros Hnode Hraf. unfold moveToPoint, _animate. rewrite Hnode. simpl.
  rewrite Hraf. simpl. rewrite Hnode. simpl.
  intros [= <-]. simpl. split; [reflexivity |].
  eexists. split; [reflexivity |]. simpl. split; reflexivity.
Qed.

(** Writing the start styles a second time changes nothing. *)
Lemma start_styles_twice (m : gmap string CssValue) (l t : CssValue) :
  let write (m : gmap string CssValue) : gmap string CssValue :=
    <[ "pointerEvents" := CssText "none" ]>
      (<[ "opacity" := CssNumber 0 ]>
         (<[ "top" := t ]> (<[ "left" := l ]> m))) in
  write (write m) = write m.
Proof.
  intros write. unfold write. apply map_eq. intros k.
  rewrite !lookup_insert. repeat case_decide; congruence.
Qed.

(** A second [show] leaves the styles and the classes of the node as the
    first call set them. *)
Lemma show_again_appearance (this this1 this2 : Widget.t) :
  show this = Ok this1 -> show this1 = Ok this2 ->
  appearance this2 = appearance this1.
Proof.
  intros Hfirst Hsecond.
  destruct (show_start this this1 Hfirst)
    as [-> | (node & top & e & Hnode & Htop & Hmove)]; [congruence |].
  destruct (moveToPoint_result _ e this this1 Hmove)
    as (Hprops & Hraf1 & _ & _ & _ & Himm).
  destruct (Window.requestAnimationFrame (Widget.window this)) eqn:Hraf.
  2:{ rewrite show_noop in Hsecond by (left; now apply Himm). congruence. }
  destruct (moveToPoint_pending_node _ e this this1 node Hnode Hraf Hmove)
    as (Hui & node1 & Hnode1 & Hstyle1 & Hclasses1).
  destruct (show_start this1 this2 Hsecond)
    as [-> | (node1' & top' & e' & Hnode1' & Htop' & Hmove')];
    [reflexivity |].
  assert (node1' = node1) as -> by congruence.
  assert (top' = top) as ->.
  { unfold showStartTop in Htop, Htop'. rewrite Hprops, Hui in Htop'.
    congruence. }
  destruct (moveToPoint_pending_node _ e' this1 this2 node1 Hnode1 Hraf1 Hmove')
    as (_ & node2 & Hnode2 & Hstyle2 & Hclasses2).
  unfold appearance. rewrite Hnode1, Hnode2. simpl. do 2 f_equal.
  - rewrite Hstyle2. simpl. unfold Element.getStyle.
    rewrite Hstyle1 at 1. rewrite !lookup_insert_ne by discriminate.
    rewrite lookup_insert_eq. simpl.
    rewrite Hstyle1. apply start_styles_twice.
  - rewrite Hclasses2, Hclasses1. apply set_eq. intros c.
    rewrite !elem_of_difference. tauto.
Qed.

Lemma moveToPoint_listeners (startPoint endPoint : num * num)
    (this this' : Widget.t) :
  moveToPoint startPoint endPoint this = Ok this' ->
  listenersOf this'
  = listenersOf this ++ [("transitionend"%string, ClearPointerEvents)].
Proof.
  unfold moveToPoint, _animate, runFrameCallback, Widget.with_domNode,
    listenersOf.
  destruct (Widget.domNode this) as [node |] eqn:Hnode; [| discriminate].
  simpl.
  destruct (Window.requestAnimationFrame (Widget.window this)); simpl;
    rewrite ?Hnode; simpl; now intros [= <-].
Qed.

(** A [show] that finds the widget mounted and hidden, with a point and
    the selection of the props, is a [moveToPoint]. *)
Lemma show_moves (this : Widget.t) (p : InteractionPoint.t) :
  isVisible this = false ->
  Widget.domNode this <> None ->
  getInteractionPoint (Props.editorEvent (Widget.props this)) = Ok (Some p) ->
  Props.selectionData (Widget.props this) <> None ->
  exists startPoint endPoint : num * num,
    show this = moveToPoint startPoint endPoint this.
Proof.
  intros Hhidden Hnode Hpoint Hsd. unfold show.
  rewrite Hhidden, Hpoint. simpl.
  destruct (Widget.domNode this) as [node |]; [| congruence].
  destruct (Props.selectionData (Widget.props this)) as [sd |];
    [| congruence].
  simpl. eexists _, _. reflexivity.
Qed.

(** A second [show] before the paint: the first has requested a frame and
    left the widget hidden, and the second requests another one. *)
Lemma show_before_paint (this this' : Widget.t) (p : InteractionPoint.t) :
  show this = Ok this' ->
  isVisible this = false ->
  Widget.domNode this <> None ->
  Window.requestAnimationFrame (Widget.window this) = true ->
  getInteractionPoint (Props.editorEvent (Widget.props this)) = Ok (Some p) ->
  isVisible this' = false
  /\ outstanding this'
     = outstanding this ++ [Window.nextHandle (Widget.window this)]
  /\ listenersOf this'
     = listenersOf this ++ [("transitionend"%string, ClearPointerEvents)]
  /\ exists this'' : Widget.t,
       show this' = Ok this''
       /\ (exists startPoint endPoint : num * num,
             moveToPoint startPoint endPoint this' = Ok this'')
       /\ this'' <> this'
       /\ outstanding this''
          = outstanding this' ++ [Window.nextHandle (Widget.window this')]
       /\ listenersOf this''
          = listenersOf this'
              ++ [("transitionend"%string, ClearPointerEvents)].
Proof.
  intros Hshow Hhidden Hnode Hraf Hpoint.
  assert (Hsd : Props.selectionData (Widget.props this) <> None).
  { intros Hnone. unfold show in Hshow.
    rewrite Hhidden, Hpoint, Hnone in Hshow. simpl in Hshow.
    destruct (Widget.domNode this); [discriminate Hshow | congruence]. }
  destruct (show_moves this p Hhidden Hnode Hpoint Hsd) as (s & e & Hmoves).
  rewrite Hmoves in Hshow.
  destruct (moveToPoint_result s e this this' Hshow)
    as (Hprops & Hraf' & _ & Hnode' & Hreq & _).
  destruct (Hreq Hraf) as [Hpending _].
  assert (Hhidden' : isVisible this' = false).
  { destruct (Widget.domNode this) as [node |] eqn:Hsome; [| congruence].
    destruct (moveToPoint_pending_node s e this this' node Hsome Hraf Hshow)
      as (_ & node' & Hsome' & _ & Hclasses).
    unfold isVisible in *. rewrite Hsome in Hhidden. rewrite Hsome'.
    unfold Element.hasClass in *.
    rewrite Hclasses. apply bool_decide_eq_false in Hhidden.
    apply bool_decide_eq_false_2. rewrite elem_of_difference. tauto. }
  split; [exact Hhidden' |].
  split; [unfold outstanding; now rewrite Hpending, fmap_app |].
  split; [exact (moveToPoint_listeners s e this this' Hshow) |].
  assert (Hpoint' : getInteractionPoint (Props.editorEvent (Widget.props this'))
                    = Ok (Some p)) by (now rewrite Hprops).
  assert (Hsd' : Props.selectionData (Widget.props this') <> None)
    by (now rewrite Hprops).
  destruct (show_moves this' p Hhidden' Hnode' Hpoint' Hsd')
    as (s' & e' & Hmoves').
  destruct (moveToPoint_mounted s' e' this' Hnode') as [this'' Hmove'].
  exists this''. split; [congruence |]. split; [eauto |].
  destruct (moveToPoint_result s' e' this' this'' Hmove')
    as (_ & _ & _ & _ & Hreq' & _).
  rewrite Hraf in Hraf'. destruct (Hreq' Hraf') as [Hpending' _].
  assert (Hout : outstanding this''
                 = outstanding this'
                     ++ [Window.nextHandle (Widget.window this')])
    by (unfold outstanding; now rewrite Hpending', fmap_app).
  split; [| split; [exact Hout |
                    exact (moveToPoint_listeners s' e' this' this'' Hmove')]].
  intros Heq. rewrite Heq in Hout. apply (f_equal length) in Hout.
  rewrite length_app in Hout. simpl in Hout. lia.
Qed.

(** C8, as amended.  [show] is a no-op, leaving the whole state as it is,
    when the widget carries the visibility marker or is not mounted.  A
    second [show] after a first never changes a style or a class of the
    node, and it is a no-op whenever the first has left the widget
    visible: that is so when [requestAnimationFrame] is not available (the
    transition runs at once), and in any case once the animation frame has
    run.  A second [show] that comes before the frame has run is not
    ignored: when the first call found the widget mounted and hidden with a
    resolved point and requested a frame, the widget is not visible yet
    and the second call goes through [moveToPoint] again, which leaves one
    more handle outstanding and one more ['transitionend'] listener on the
    node. *)
Theorem show_twice (this : Widget.t) :
  (isVisible this = true \/ Widget.domNode this = None -> show this = Ok this)
  /\ (forall this' : Widget.t,
        show this = Ok this' ->
        (forall this'' : Widget.t,
           show this' = Ok this'' -> appearance this'' = appearance this')
        /\ (isVisible this' = true -> show this' = Ok this')
        /\ (Window.requestAnimationFrame (Widget.window this) = false ->
              show this' = Ok this')
        /\ show (animationFrame this') = Ok (animationFrame this')
        /\ (isVisible this = false ->
            Widget.domNode this <> None ->
            Window.requestAnimationFrame (Widget.window this) = true ->
            (exists p : InteractionPoint.t,
               getInteractionPoint (Props.editorEvent (Widget.props this))
               = Ok (Some p)) ->
            isVisible this' = false
            /\ outstanding this'
               = outstanding this ++ [Window.nextHandle (Widget.window this)]
            /\ listenersOf this'
               = listenersOf this
                   ++ [("transitionend"%string, ClearPointerEvents)]
            /\ exists this'' : Widget.t,
                 show this' = Ok this''
                 /\ (exists startPoint endPoint : num * num,
                       moveToPoint startPoint endPoint this' = Ok this'')
                 /\ this'' <> this'
                 /\ outstanding this''
                    = outstanding this'
                        ++ [Window.nextHandle (Widget.window this')]
                 /\ listenersOf this''
                    = listenersOf this'
                        ++ [("transitionend"%string, ClearPointerEvents)])).
Proof.
  split; [apply show_noop |].
  intros this' Hshow.
  destruct (animationFrame_frame this')
    as (Hprops & Hunmounted & Hvisible & Hrun & _).
  split; [| split; [| split; [| split]]].
  - intros this'' Hagain. exact (show_again_appearance this this' this'' Hshow Hagain).
  - intros Hvis. apply show_noop. now left.
  - intros Hraf.
    destruct (show_cases this this' Hshow)
      as [[-> [Hvis | [Hnode | Hnone]]] | (_ & s & e & Hmove)].
    + apply show_noop. now left.
    + apply show_noop. now right.
    + now apply show_skips_without_point.
    + destruct (moveToPoint_result s e this this' Hmove)
        as (_ & _ & _ & _ & _ & Himm).
      apply show_noop. left. now apply Himm.
  - destruct (show_cases this this' Hshow)
      as [[-> [Hvis | [Hnode | Hnone]]] | (_ & s & e & Hmove)].
    + apply show_noop. left. now apply Hvisible.
    + apply show_noop. right. now apply Hunmounted.
    + apply show_skips_without_point. now rewrite Hprops.
    + destruct (moveToPoint_result s e this this' Hmove)
        as (_ & _ & _ & Hnode' & Hreq & Himm).
      apply show_noop. left.
      destruct (Window.requestAnimationFrame (Widget.window this)).
      * apply Hrun; [| exact Hnode'].
        destruct (Hreq eq_refl) as [-> _].
        now destruct (Window.pending (Widget.window this)).
      * apply Hvisible. now apply Himm.
  - intros Hhidden Hnode Hraf [p Hpoint].
    exact (show_before_paint this this' p Hshow Hhidden Hnode Hraf Hpoint).
Qed.

Lemma show_twice_witness :
  exists this' : Widget.t,
    show (sampleWidget SELECTION_TOP_TO_BOTTOM) = Ok this'
    /\ isVisible (animationFrame this') = true
    /\ show (animationFrame this') = Ok (animationFrame this').
Proof.
  destruct (moveToPoint_mounted (Num 200, Num 120) (Num 200, Num 300)
              (sampleWidget SELECTION_TOP_TO_BOTTOM)) as [this' Hmove].
  { discriminate. }
  assert (Hshow : show (sampleWidget SELECTION_TOP_TO_BOTTOM) = Ok this').
  { rewrite <- Hmove. reflexivity. }
  exists this'. split; [exact Hshow |].
  split; [| apply (show_twice (sampleWidget SELECTION_TOP_TO_BOTTOM)), Hshow].
  injection Hmove as <-. reflexivity.
Defined.

(** A second [show] before the animation frame has run is not ignored.
    After the first call the widget is not yet visible; the second call
    queues a second callback and registers a second listener, and when the
    frame runs the widget ends at top 120, where the second call sends it,
    instead of top 300, where the first call alone sends it. *)
Lemma second_show_before_frame :
  exists this1 this2 : Widget.t,
    show (sampleWidget SELECTION_TOP_TO_BOTTOM) = Ok this1
    /\ isVisible this1 = false
    /\ show this1 = Ok this2
    /\ this2 <> this1
    /\ outstanding this1 = [1%nat]
    /\ outstanding this2 = [1%nat; 2%nat]
    /\ (length ∘ Element.listeners <$> Widget.domNode this1) = Some 1%nat
    /\ (length ∘ Element.listeners <$> Widget.domNode this2) = Some 2%nat
    /\ styledAt (animationFrame this1) = Some (Num 200, Num 300)
    /\ styledAt (animationFrame this2) = Some (Num 200, Num 120).
Proof.
  eexists _, _. split; [vm_compute; reflexivity |].
  split; [vm_compute; reflexivity |].
  split; [vm_compute; reflexivity |].
  split.
  { intros Heq. apply (f_equal outstanding) in Heq.
    vm_compute in Heq. discriminate Heq. }
  vm_compute. repeat split.
Qed.

(** * Further properties of the component *)

(** ** The X-edge heuristic as a projection *)

Lemma Qabs_sub_cases (a b : Q) :
  (a <= b /\ Qabs (a - b) == b - a) \/ (b <= a /\ Qabs (a - b) == a - b).
Proof.
  destruct (Qlt_le_dec a b) as [Hlt | Hge].
  - left. split; [lra |]. rewrite Qabs_neg by lra. lra.
  - right. split; [lra |]. rewrite Qabs_pos by lra. lra.
Qed.

(** X1.  When the left bound is not to the right of the right bound,
    [_getXPoint] is the projection of the pointer x onto the interval
    between the bounds: the pointer itself inside, the nearer bound
    outside.  In particular its result lies between the bounds. *)
Theorem getXPoint_is_projection (sd : SelectionData.t) (x : Q) :
  let region := SelectionData.region sd in
  edgeLeft region <= edgeRight region ->
  _getXPoint sd x == Qmax (edgeLeft region) (Qmin x (edgeRight region))
  /\ edgeLeft region <= _getXPoint sd x
  /\ _getXPoint sd x <= edgeRight region.
Proof.
  intros region Hbounds.
  set (l := edgeLeft region) in *. set (r := edgeRight region) in *.
  assert (Hclamp : forall v : Q,
             (v == x /\ l <= x /\ x <= r) \/ (v == l /\ x <= l)
             \/ (v == r /\ r <= x) ->
             v == Qmax l (Qmin x r) /\ l <= v /\ v <= r).
  { intros v Hv.
    destruct (Q.min_spec x r) as [[H1 ->] | [H1 ->]];
      destruct (Q.max_spec l x) as [[H2 H2'] | [H2 H2']];
      destruct (Q.max_spec l r) as [[H3 H3'] | [H3 H3']];
      rewrite ?H2', ?H3'; lra. }
  apply Hclamp.
  destruct (Qlt_le_dec l x) as [Hl | Hl];
    [destruct (Qlt_le_dec x r) as [Hr | Hr] |].
  - left. rewrite getXPoint_inside by assumption. split; [reflexivity | lra].
  - rewrite getXPoint_outside by (fold region l r; lra). fold region l r.
    destruct (Qabs_sub_cases l x) as [[Hol Hal] | [Hol Hal]];
      destruct (Qabs_sub_cases r x) as [[Hor Har] | [Hor Har]];
      destruct (JS.Qltb _ _) eqn:Hcmp;
      try (apply Qltb_lt in Hcmp; rewrite Hal, Har in Hcmp);
      try (right; right; split; [reflexivity | lra]); lra.
  - rewrite getXPoint_outside by (fold region l r; lra). fold region l r.
    destruct (Qabs_sub_cases l x) as [[Hol Hal] | [Hol Hal]];
      destruct (Qabs_sub_cases r x) as [[Hor Har] | [Hor Har]];
      destruct (JS.Qltb _ _) eqn:Hcmp;
      try (apply Qltb_lt in Hcmp; rewrite Hal, Har in Hcmp);
      try (apply Qltb_ge in Hcmp; rewrite Hal, Har in Hcmp);
      try (right; left; split; [reflexivity | lra]);
      try (right; right; split; [lra | lra]); lra.
Qed.

Lemma getXPoint_is_projection_witness :
  let sd := sampleSelection SELECTION_TOP_TO_BOTTOM in
  _getXPoint sd 55 == Qmax 10 (Qmin 55 50)
  /\ 10 <= _getXPoint sd 55 /\ _getXPoint sd 55 <= 50.
Proof.
  intros sd. apply (getXPoint_is_projection sd 55). discriminate.
Defined.

(** X2.  Whatever the bounds, [_getXPoint] returns the pointer x or one of
    the two bounds, and it is idempotent: applied to its own result it
    returns that result. *)
Theorem getXPoint_idempotent (sd : SelectionData.t) (x : Q) :
  let region := SelectionData.region sd in
  let r := _getXPoint sd x in
  (r = x \/ r = edgeLeft region \/ r = edgeRight region)
  /\ _getXPoint sd r = r.
Proof.
  intros region r. unfold r.
  set (lo := edgeLeft region). set (hi := edgeRight region).
  assert (Hinside : lo < x /\ x < hi \/ ~ (lo < x /\ x < hi)).
  { destruct (Qlt_le_dec lo x); [destruct (Qlt_le_dec x hi) |]; [tauto | |];
      right; lra. }
  destruct Hinside as [[Hl Hr] | Hout].
  - rewrite (getXPoint_inside sd x) by assumption.
    split; [now left |]. now apply getXPoint_inside.
  - rewrite (getXPoint_outside sd x) by exact Hout.
    fold region lo hi.
    destruct (JS.Qltb (Qabs (lo - x)) (Qabs (hi - x))) eqn:Hcmp.
    + split; [tauto |].
      rewrite getXPoint_outside by (fold region lo hi; lra).
      fold region lo hi.
      assert (Hy : Qabs (lo - lo) < Qabs (hi - lo)).
      { apply Qltb_lt in Hcmp.
        rewrite (Qabs_pos (lo - lo)) by lra.
        destruct (Qabs_sub_cases lo x) as [[Hol Hal] | [Hol Hal]];
          destruct (Qabs_sub_cases hi x) as [[Hor Har] | [Hor Har]];
          destruct (Qabs_sub_cases hi lo) as [[Ho Ha] | [Ho Ha]];
          rewrite Hal, Har in Hcmp; rewrite Ha; lra. }
      apply Qltb_lt in Hy. now rewrite Hy.
    + split; [tauto |].
      rewrite getXPoint_outside by (fold region lo hi; lra).
      fold region lo hi.
      assert (Hn : ~ Qabs (lo - hi) < Qabs (hi - hi)).
      { pose proof (Qabs_nonneg (lo - hi)).
        rewrite (Qabs_pos (hi - hi)) by lra. lra. }
      apply Qltb_ge in Hn. now rewrite Hn.
Qed.

(** ** The resolver: direction and anchor *)

(** X3.  The direction the region reports is kept unless both rectangles
    are there with equal tops: when the start or the end rectangle is
    missing, or their tops differ, the resolved point carries the region's
    own direction. *)
Theorem reported_direction_kept (ne : NativeEvent.t) (sd : SelectionData.t) :
  let region := SelectionData.region sd in
  Region.startRect region = None
  \/ Region.endRect region = None
  \/ (exists startRect endRect : Rect.t,
        Region.startRect region = Some startRect
        /\ Region.endRect region = Some endRect
        /\ ~ Rect.top startRect == Rect.top endRect) ->
  exists p : InteractionPoint.t,
    getInteractionPoint (eventOf (Some ne) (Some sd)) = Ok (Some p)
    /\ InteractionPoint.direction p = Region.direction region.
Proof.
  intros region Hrects.
  destruct (getInteractionPoint_total ne sd) as (p & Hp & Hdir).
  exists p. split; [exact Hp |]. rewrite Hdir. fold region.
  unfold resolvedDirection.
  destruct Hrects as [-> | [-> | (s & e & -> & -> & Htops)]].
  - now destruct (Region.endRect region).
  - reflexivity.
  - destruct (JS.Qeqb (Rect.top s) (Rect.top e)) eqn:Heq; [| reflexivity].
    apply Qeqb_eq in Heq. contradiction.
Qed.

Lemma reported_direction_kept_witness :
  exists p : InteractionPoint.t,
    getInteractionPoint
      (eventOf (Some sampleNativeEvent)
               (Some (sampleSelection SELECTION_LEFT_TO_RIGHT))) = Ok (Some p)
    /\ InteractionPoint.direction p = SELECTION_LEFT_TO_RIGHT.
Proof.
  apply (reported_direction_kept sampleNativeEvent
           (sampleSelection SELECTION_LEFT_TO_RIGHT)).
  left. reflexivity.
Defined.

(** X4.  When the resolved direction is BOTTOM_TO_TOP the anchor's y is the
    top of the region in both branches of the resolver: it depends neither
    on the pointer being usable nor on the event target. *)
Theorem bottom_to_top_anchor (ne : NativeEvent.t) (sd : SelectionData.t) :
  let region := SelectionData.region sd in
  resolvedDirection region = SELECTION_BOTTOM_TO_TOP ->
  exists p : InteractionPoint.t,
    getInteractionPoint (eventOf (Some ne) (Some sd)) = Ok (Some p)
    /\ InteractionPoint.direction p = SELECTION_BOTTOM_TO_TOP
    /\ InteractionPoint.y p == Region.top region.
Proof.
  intros region Hdir. unfold getInteractionPoint. simpl. fold region.
  rewrite Hdir. simpl.
  destruct (NativeEvent.pageX ne) as [px |].
  - destruct (JS.truthy px && JS.truthy (Region.top region)).
    + eexists. split; [reflexivity |]. split; [reflexivity |]. simpl.
      apply Q.min_id.
    + eexists. split; [reflexivity |]. split; reflexivity.
  - eexists. split; [reflexivity |]. split; reflexivity.
Qed.

Lemma bottom_to_top_anchor_witness :
  exists p : InteractionPoint.t,
    getInteractionPoint
      (eventOf (Some (NativeEvent.mk (Some 30) (Some scrollableTarget)))
               (Some singleLineSelection)) = Ok (Some p)
    /\ InteractionPoint.direction p = SELECTION_BOTTOM_TO_TOP
    /\ InteractionPoint.y p == 100.
Proof.
  apply (bottom_to_top_anchor (NativeEvent.mk (Some 30) (Some scrollableTarget))
           singleLineSelection).
  reflexivity.
Defined.

(** ** The viewport constraint: which way it moves *)

(** X5.  The constraint never moves a rectangle to the right or up and
    never returns a negative y: on finite numbers [x <= left],
    [top <= y] and [0 <= y]; the y is the top itself or 0; and a rectangle
    that does not overflow on the right and is not above the page is
    returned where it is. *)
Theorem getConstrainedPosition_left_down (left top width height vw : Q)
    (ambient : ViewPaneSize.t) :
  exists x y : Q,
    getConstrainedPosition ambient
      (Attrs.mk (Num height) (Num left) (Num top) (Num width))
      (Some (ViewPaneSize.mk (Num vw)))
      = Position.mk (Num x) (Num y)
    /\ x <= left /\ top <= y /\ 0 <= y
    /\ (y = top \/ y = 0)
    /\ (left + width <= vw -> x = left)
    /\ (0 <= top -> y = top).
Proof.
  unfold getConstrainedPosition, JS.gtb. simpl.
  destruct (JS.Qltb vw (left + width)) eqn:Hx;
    destruct (JS.Qltb top 0) eqn:Hy;
    [apply Qltb_lt in Hx | apply Qltb_lt in Hx
     | apply Qltb_ge in Hx | apply Qltb_ge in Hx];
    [apply Qltb_lt in Hy | apply Qltb_ge in Hy
     | apply Qltb_lt in Hy | apply Qltb_ge in Hy];
    eexists _, _; (split; [reflexivity |]);
    repeat split; try lra; try (now left); try (now right); reflexivity.
Qed.

(** X6.  Nothing is clamped on [NaN]: when the left, the width or the
    viewport width is not a number the x is returned as it came, and a top
    that is not a number is returned as such. *)
Theorem getConstrainedPosition_nan (attrs : Attrs.t) (vp ambient : ViewPaneSize.t) :
  let res := getConstrainedPosition ambient attrs (Some vp) in
  (Attrs.left attrs = NaN \/ Attrs.width attrs = NaN
   \/ ViewPaneSize.width vp = NaN -> Position.x res = Attrs.left attrs)
  /\ (Attrs.top attrs = NaN -> Position.y res = NaN).
Proof.
  intros res. unfold res, getConstrainedPosition, JS.gtb, JS.ltb, JS.add.
  destruct attrs as [h [| l] t [| w]], vp as [[| v]]; simpl; split;
    try reflexivity; try (now intros ->).
  intros [H | [H | H]]; discriminate H.
Qed.

Lemma getConstrainedPosition_nan_witness :
  Position.x (getConstrainedPosition (ViewPaneSize.mk (Num 1024))
                (Attrs.mk (Num 20) NaN (Num (-5)) (Num 80))
                (Some (ViewPaneSize.mk (Num 10)))) = NaN.
Proof.
  apply (getConstrainedPosition_nan (Attrs.mk (Num 20) NaN (Num (-5)) (Num 80))
           (ViewPaneSize.mk (Num 10)) (ViewPaneSize.mk (Num 1024))).
  left. reflexivity.
Defined.

(** ** Placement on a widget that is not mounted *)

(** X7.  Without a DOM node [getWidgetXYPoint] fails with a [TypeError] for
    each of the four directions, whose branches read the size of the node,
    and for no direction it still returns the anchor floored at 0. *)
Theorem getWidgetXYPoint_unmounted (this : Widget.t) (left top : Q)
    (direction : Direction) :
  Widget.domNode this = None ->
  getWidgetXYPoint this left top direction =
    if decide (direction = SELECTION_NONE)
    then Ok (Qmax left 0, Qmax top 0)
    else TypeError.
Proof.
  intros Hnode. unfold getWidgetXYPoint. rewrite Hnode.
  destruct direction; simpl; try reflexivity.
  now rewrite !floor_at_zero.
Qed.

Lemma getWidgetXYPoint_unmounted_witness :
  getWidgetXYPoint unmountedWidget 100 50 SELECTION_TOP_TO_BOTTOM = TypeError.
Proof.
  apply (getWidgetXYPoint_unmounted unmountedWidget 100 50
           SELECTION_TOP_TO_BOTTOM).
  reflexivity.
Defined.

(** ** Repositioning: what it touches and what it leaves *)

(** What a call of [updatePosition] that returns has done. *)
Lemma updatePosition_cases (this this' : Widget.t) :
  updatePosition this = Ok this' ->
  this' = this
  \/ exists (node : Element.t) (p : InteractionPoint.t) (xy : Q * Q),
       Widget.domNode this = Some node
       /\ getInteractionPoint (Props.editorEvent (Widget.props this))
          = Ok (Some p)
       /\ getWidgetXYPoint this (InteractionPoint.x p) (InteractionPoint.y p)
            (InteractionPoint.direction p) = Ok xy
       /\ this' =
          Widget.with_domNode
            (Element.setStyles
               [("left"%string,
                  CssPx (clampLeft (fst xy) (totalWidth (scrollContainer this))
                                   (Element.offsetWidth node)));
                ("top"%string,
                  CssPx (Num (snd xy + scrollOffset (scrollContainer this))))])
            this.
Proof.
  unfold updatePosition.
  destruct (getInteractionPoint _) as [[p |] |] eqn:Hp; simpl;
    [| intros [= <-]; now left | discriminate].
  destruct (Widget.domNode this) as [node |] eqn:Hnode;
    [| intros [= <-]; now left].
  destruct (getWidgetXYPoint this _ _ _) as [xy |] eqn:Hxy; simpl;
    [| discriminate].
  intros [= <-]. right. exists node, p, xy. repeat split; assumption.
Qed.

Lemma setStyles_left_top_twice (l t : CssValue) (node : Element.t) :
  let write := Element.setStyles [("left"%string, l); ("top"%string, t)] in
  write (write node) = write node.
Proof.
  intros write. unfold write, Element.setStyles, Element.setStyle,
    Element.with_style. simpl. f_equal.
  apply map_eq. intros k. rewrite !lookup_insert. repeat case_decide; congruence.
Qed.

(** X8.  [updatePosition] moves the node and does nothing else: the props,
    the window with its pending frames, the recorded handle, the classes
    (and with them the visibility), the listeners and every inline style
    but [left] and [top] are as before. *)
Theorem updatePosition_only_moves (this this' : Widget.t) :
  updatePosition this = Ok this' ->
  Widget.props this' = Widget.props this
  /\ Widget.uiNode this' = Widget.uiNode this
  /\ Widget.window this' = Widget.window this
  /\ Widget._animationFrameId this' = Widget._animationFrameId this
  /\ isVisible this' = isVisible this
  /\ listenersOf this' = listenersOf this
  /\ (forall c : string, carries c this' = carries c this)
  /\ (forall name : string,
        name <> "left"%string -> name <> "top"%string ->
        (fun node => Element.getStyle node name) <$> Widget.domNode this'
        = (fun node => Element.getStyle node name) <$> Widget.domNode this).
Proof.
  intros Hup.
  destruct (updatePosition_cases this this' Hup)
    as [-> | (node & p & xy & Hnode & _ & _ & ->)]; [tauto |].
  unfold isVisible, listenersOf, carries, Widget.with_domNode. simpl.
  rewrite Hnode. simpl. repeat split.
  intros name Hl Ht. f_equal. unfold Element.getStyle. simpl.
  now rewrite !lookup_insert_ne by congruence.
Qed.

Lemma updatePosition_only_moves_witness :
  exists this' : Widget.t,
    updatePosition (sampleWidget SELECTION_TOP_TO_BOTTOM) = Ok this'
    /\ isVisible this' = false
    /\ Widget.window this' = sampleWindow.
Proof.
  eexists. split; [reflexivity |].
  destruct (updatePosition_only_moves (sampleWidget SELECTION_TOP_TO_BOTTOM) _
              eq_refl) as (_ & _ & Hw & _ & Hv & _).
  split; [exact Hv | exact Hw].
Defined.

(** X9.  [updatePosition] is idempotent: the position it writes is read
    from the event, the container and the size of the node, none of which
    it changes, so a second call in the same situation returns the state
    of the first. *)
Theorem updatePosition_idempotent (this this' : Widget.t) :
  updatePosition this = Ok this' -> updatePosition this' = Ok this'.
Proof.
  intros Hup.
  destruct (updatePosition_cases this this' Hup)
    as [-> | (node & p & xy & Hnode & Hp & Hxy & ->)]; [exact Hup |].
  set (write := Element.setStyles _).
  assert (Hxy' : getWidgetXYPoint (Widget.with_domNode write this)
                   (InteractionPoint.x p) (InteractionPoint.y p)
                   (InteractionPoint.direction p) = Ok xy).
  { rewrite <- Hxy.
    rewrite (getWidgetXYPoint_mounted this node) by exact Hnode.
    rewrite (getWidgetXYPoint_mounted (Widget.with_domNode write this)
               (write node))
      by (unfold Widget.with_domNode; simpl; now rewrite Hnode).
    reflexivity. }
  unfold updatePosition. simpl. rewrite Hp. simpl. rewrite Hnode. simpl.
  rewrite Hxy'. simpl. f_equal.
  unfold Widget.with_domNode. simpl. rewrite Hnode. simpl. do 2 f_equal.
  apply setStyles_left_top_twice.
Qed.

Lemma updatePosition_idempotent_witness :
  exists this' : Widget.t,
    updatePosition (sampleWidget SELECTION_TOP_TO_BOTTOM) = Ok this'
    /\ updatePosition this' = Ok this'.
Proof.
  eexists. split; [reflexivity |].
  apply (updatePosition_idempotent (sampleWidget SELECTION_TOP_TO_BOTTOM)).
  reflexivity.
Defined.

(** X10.  [updatePosition] fails exactly when the resolver fails: the
    placement is computed only on a mounted widget, where it cannot fail.
    On a widget that is not mounted a call that returns has changed
    nothing. *)
Theorem updatePosition_errors (this : Widget.t) :
  (updatePosition this = TypeError
   <-> getInteractionPoint (Props.editorEvent (Widget.props this)) = TypeError)
  /\ (Widget.domNode this = None ->
      forall this' : Widget.t, updatePosition this = Ok this' -> this' = this).
Proof.
  split.
  - unfold updatePosition.
    destruct (getInteractionPoint _) as [[p |] |]; simpl;
      [| split; discriminate | tauto].
    destruct (Widget.domNode this) as [node |] eqn:Hnode;
      [| split; discriminate].
    rewrite (getWidgetXYPoint_mounted this node) by exact Hnode.
    destruct (InteractionPoint.direction p); simpl; split; discriminate.
  - intros Hnode this' Hup.
    destruct (updatePosition_cases this this' Hup)
      as [-> | (node & _ & _ & Hsome & _)]; [reflexivity | congruence].
Qed.

(** ** Transitions: the two ways of [_animate] *)

Ltac lookup_styles :=
  unfold Element.getStyle; simpl;
  rewrite !lookup_insert; repeat (case_decide; try congruence);
  try reflexivity.

(** X11.  Without [requestAnimationFrame] a [moveToPoint] on a mounted
    widget completes at once: the widget is visible and in transition at
    the end point with full opacity, the invisible marker is gone, pointer
    events are still disabled, no frame is requested and no handle is
    recorded. *)
Theorem moveToPoint_immediate (startPoint endPoint : num * num)
    (this : Widget.t) (node : Element.t) :
  Widget.domNode this = Some node ->
  Window.requestAnimationFrame (Widget.window this) = false ->
  exists (this' : Widget.t) (node' : Element.t),
    moveToPoint startPoint endPoint this = Ok this'
    /\ Widget.domNode this' = Some node'
    /\ isVisible this' = true
    /\ styledAt this' = Some endPoint
    /\ Element.getStyle node' "opacity" = CssNumber 1
    /\ Element.getStyle node' "pointerEvents" = CssText "none"
    /\ Element.hasClass node' "ae-toolbar-transition" = true
    /\ Element.hasClass node' "alloy-editor-invisible" = false
    /\ Widget.window this' = Widget.window this
    /\ Widget._animationFrameId this' = Widget._animationFrameId this.
Proof.
  intros Hnode Hraf.
  unfold moveToPoint, _animate, runFrameCallback, Widget.with_domNode.
  do 3 (simpl; rewrite ?Hnode, ?Hraf).
  eexists _, _. split; [reflexivity |]. split; [reflexivity |].
  unfold isVisible, styledAt. simpl.
  repeat split.
  - apply bool_decide_eq_true_2. set_solver.
  - f_equal. destruct endPoint as [ex ey]. simpl. f_equal; now lookup_styles.
  - now lookup_styles.
  - now lookup_styles.
  - apply bool_decide_eq_true_2. simpl. set_solver.
  - apply bool_decide_eq_false_2. simpl.
    rewrite !elem_of_union, elem_of_difference, !elem_of_singleton.
    intros [[[_ H] | H] | H]; [now apply H | discriminate H | discriminate H].
Qed.

Lemma moveToPoint_immediate_witness :
  exists (this' : Widget.t) (node' : Element.t),
    moveToPoint (Num 0, Num 0) (Num 5, Num 7)
                (withoutFrames (sampleWidget SELECTION_TOP_TO_BOTTOM)) = Ok this'
    /\ Widget.domNode this' = Some node'
    /\ isVisible this' = true
    /\ styledAt this' = Some (Num 5, Num 7).
Proof.
  destruct (moveToPoint_immediate (Num 0, Num 0) (Num 5, Num 7)
              (withoutFrames (sampleWidget SELECTION_TOP_TO_BOTTOM))
              sampleNode eq_refl eq_refl)
    as (this' & node' & Hm & Hn & Hv & Hs & _).
  exists this', node'. tauto.
Defined.

(** X12.  The deferred way and the immediate way of [_animate] agree: when
    nothing else is pending, a [moveToPoint] followed by the next paint
    leaves the node exactly as the same [moveToPoint] leaves it in a
    browser without [requestAnimationFrame]; until the paint the widget's
    visibility is as it was. *)
Theorem deferred_matches_immediate (startPoint endPoint : num * num)
    (this : Widget.t) (node : Element.t) :
  Widget.domNode this = Some node ->
  Window.requestAnimationFrame (Widget.window this) = true ->
  Window.pending (Widget.window this) = [] ->
  exists deferred immediate : Widget.t,
    moveToPoint startPoint endPoint this = Ok deferred
    /\ moveToPoint startPoint endPoint (withoutFrames this) = Ok immediate
    /\ isVisible deferred = isVisible this
    /\ Widget.domNode (animationFrame deferred) = Widget.domNode immediate
    /\ outstanding (animationFrame deferred) = [].
Proof.
  intros Hnode Hraf Hpending.
  unfold moveToPoint, _animate, withoutFrames, runFrameCallback,
    Widget.with_domNode.
  do 3 (simpl; rewrite ?Hnode, ?Hraf, ?Hpending).
  eexists _, _. split; [reflexivity |]. split; [reflexivity |].
  split; [| unfold animationFrame, outstanding; simpl;
            rewrite ?Hpending; split; reflexivity].
  unfold isVisible. simpl. rewrite Hnode. unfold Element.hasClass. simpl.
  apply bool_decide_ext.
  rewrite elem_of_difference, elem_of_singleton.
  split; [tauto |]. intros H. split; [exact H | discriminate].
Qed.

Lemma deferred_matches_immediate_witness :
  exists deferred immediate : Widget.t,
    moveToPoint (Num 0, Num 0) (Num 5, Num 7)
                (sampleWidget SELECTION_TOP_TO_BOTTOM) = Ok deferred
    /\ moveToPoint (Num 0, Num 0) (Num 5, Num 7)
                   (withoutFrames (sampleWidget SELECTION_TOP_TO_BOTTOM))
       = Ok immediate
    /\ Widget.domNode (animationFrame deferred) = Widget.domNode immediate.
Proof.
  destruct (deferred_matches_immediate (Num 0, Num 0) (Num 5, Num 7)
              (sampleWidget SELECTION_TOP_TO_BOTTOM) sampleNode
              eq_refl eq_refl eq_refl)
    as (d & i & Hd & Hi & _ & Heq & _).
  exists d, i. tauto.
Defined.

(** ** Cancelling *)

Lemma filter_all {A : Type} (P : A -> Prop) `{!forall x, Decision (P x)}
    (l : list A) :
  Forall P l -> filter P l = l.
Proof.
  induction 1 as [| x l Hx _ IH]; [reflexivity |].
  rewrite filter_cons, decide_True by exact Hx. now rewrite IH.
Qed.

Lemma filter_twice {A : Type} (P : A -> Prop) `{!forall x, Decision (P x)}
    (l : list A) :
  filter P (filter P l) = filter P l.
Proof.
  apply filter_all.
  induction l as [| x l IH]; [constructor |].
  rewrite filter_cons. destruct (decide (P x)); [constructor |]; assumption.
Qed.

Lemma cancelAnimation_parts (this : Widget.t) :
  Widget.domNode (cancelAnimation this) = Widget.domNode this
  /\ Widget.props (cancelAnimation this) = Widget.props this
  /\ Widget._animationFrameId (cancelAnimation this)
     = Widget._animationFrameId this
  /\ Window.pending (Widget.window (cancelAnimation this))
     = if Window.cancelAnimationFrame (Widget.window this)
       then filter (fun f => Some (fst f) ≠ Widget._animationFrameId this)
                   (Window.pending (Widget.window this))
       else Window.pending (Widget.window this).
Proof.
  unfold cancelAnimation.
  destruct (Window.cancelAnimationFrame (Widget.window this)); simpl; tauto.
Qed.

Lemma moveToPoint_cancel_flag (startPoint endPoint : num * num)
    (this this' : Widget.t) :
  moveToPoint startPoint endPoint this = Ok this' ->
  Window.cancelAnimationFrame (Widget.window this')
  = Window.cancelAnimationFrame (Widget.window this).
Proof.
  unfold moveToPoint, _animate, runFrameCallback, Widget.with_domNode.
  destruct (Widget.domNode this); [| discriminate]. simpl.
  destruct (Window.requestAnimationFrame (Widget.window this));
    simpl; now intros [= <-].
Qed.

Lemma animationFrame_idle (this : Widget.t) :
  Window.pending (Widget.window this) = [] ->
  Widget.domNode (animationFrame this) = Widget.domNode this.
Proof.
  intros Hempty. unfold animationFrame. now rewrite Hempty.
Qed.

(** X13.  A [cancelAnimation] straight after a [moveToPoint] takes back the
    request that this [moveToPoint] made and no other one: with fresh
    handles the pending requests are those from before the [moveToPoint],
    the node stays as [moveToPoint] left it at the start point, and if
    nothing else was pending the next paint does not touch the node. *)
Theorem cancel_takes_back_request (startPoint endPoint : num * num)
    (this this' : Widget.t) :
  handlesFresh this ->
  Window.requestAnimationFrame (Widget.window this) = true ->
  Window.cancelAnimationFrame (Widget.window this) = true ->
  moveToPoint startPoint endPoint this = Ok this' ->
  Window.pending (Widget.window (cancelAnimation this'))
    = Window.pending (Widget.window this)
  /\ Widget.domNode (cancelAnimation this') = Widget.domNode this'
  /\ styledAt (cancelAnimation this') = Some startPoint
  /\ (Window.pending (Widget.window this) = [] ->
        Widget.domNode (animationFrame (cancelAnimation this'))
        = Widget.domNode this').
Proof.
  intros Hfresh Hraf Hcaf Hmove.
  destruct (cancelAnimation_parts this') as (Hnode' & _ & _ & Hcancel).
  destruct (moveToPoint_result _ _ this this' Hmove)
    as (_ & _ & Hmounted & _ & Hreq & _).
  destruct (Hreq Hraf) as [Hpending Hid].
  rewrite (moveToPoint_cancel_flag _ _ this this' Hmove), Hcaf in Hcancel.
  assert (Hback : Window.pending (Widget.window (cancelAnimation this'))
                  = Window.pending (Widget.window this)).
  { rewrite Hcancel, Hpending, Hid.
    rewrite filter_app, filter_cons, filter_nil. simpl.
    rewrite decide_False by tauto. rewrite app_nil_r.
    apply filter_all. unfold handlesFresh in Hfresh.
    eapply Forall_impl; [exact Hfresh |]. simpl. intros f Hf [= Heq]. lia. }
  split; [exact Hback |]. split; [exact Hnode' |]. split.
  - destruct (Widget.domNode this) as [node |] eqn:Hnode; [| congruence].
    destruct (moveToPoint_pending_node _ _ this this' node Hnode Hraf Hmove)
      as (_ & node' & Hsome & Hstyle & _).
    unfold styledAt. rewrite Hnode', Hsome. simpl.
    unfold Element.getStyle. rewrite Hstyle.
    destruct startPoint as [sx sy]. simpl. do 2 f_equal;
      rewrite !lookup_insert; repeat (case_decide; try congruence);
      reflexivity.
  - intros Hempty. rewrite animationFrame_idle by congruence. exact Hnode'.
Qed.

Lemma cancel_takes_back_request_witness :
  exists this' : Widget.t,
    moveToPoint (Num 0, Num 0) (Num 5, Num 7)
                (sampleWidget SELECTION_TOP_TO_BOTTOM) = Ok this'
    /\ Window.pending (Widget.window (cancelAnimation this')) = []
    /\ styledAt (cancelAnimation this') = Some (Num 0, Num 0).
Proof.
  eexists. split; [reflexivity |].
  destruct (cancel_takes_back_request (Num 0, Num 0) (Num 5, Num 7)
              (sampleWidget SELECTION_TOP_TO_BOTTOM) _
              (List.Forall_nil _) eq_refl eq_refl eq_refl) as (Hp & _ & Hs & _).
  split; [exact Hp | exact Hs].
Defined.

(** X14.  [cancelAnimation] acts on the queue of the browser only: the
    node, the props and the recorded handle are as before.  Cancelling
    twice is cancelling once, and where [cancelAnimationFrame] is missing,
    or no handle has been recorded yet, nothing is cancelled. *)
Theorem cancelAnimation_harmless (this : Widget.t) :
  Widget.domNode (cancelAnimation this) = Widget.domNode this
  /\ Widget.props (cancelAnimation this) = Widget.props this
  /\ Widget._animationFrameId (cancelAnimation this)
     = Widget._animationFrameId this
  /\ cancelAnimation (cancelAnimation this) = cancelAnimation this
  /\ (Window.cancelAnimationFrame (Widget.window this) = false
      \/ Widget._animationFrameId this = None ->
      Window.pending (Widget.window (cancelAnimation this))
      = Window.pending (Widget.window this)).
Proof.
  destruct (cancelAnimation_parts this) as (Hnode & Hprops & Hid & Hpending).
  split; [exact Hnode |]. split; [exact Hprops |]. split; [exact Hid |].
  split.
  - unfold cancelAnimation.
    destruct (Window.cancelAnimationFrame (Widget.window this)) eqn:Hcaf;
      simpl; rewrite Hcaf; [| reflexivity].
    unfold Window.with_pending. simpl. do 2 f_equal.
    exact (filter_twice
             (fun f : nat * FrameCallback =>
                Some (fst f) ≠ Widget._animationFrameId this) _).
  - rewrite Hpending. intros [-> | ->]; [reflexivity |].
    destruct (Window.cancelAnimationFrame (Widget.window this));
      [| reflexivity].
    apply filter_all. apply Forall_forall. intros f _. discriminate.
Qed.

Lemma cancelAnimation_harmless_witness :
  Window.pending (Widget.window
                    (cancelAnimation (sampleWidget SELECTION_TOP_TO_BOTTOM)))
  = [].
Proof.
  destruct (cancelAnimation_harmless (sampleWidget SELECTION_TOP_TO_BOTTOM))
    as (_ & _ & _ & _ & H).
  apply H. right. reflexivity.
Defined.

(** ** The marker classes over a run *)

Ltac markers :=
  unfold markersOnly; split; intros ?c;
  repeat (rewrite elem_of_difference || rewrite elem_of_union
          || rewrite elem_of_singleton);
  tauto.

Lemma markersOnly_refl (cs : gset string) : markersOnly cs cs.
Proof. markers. Qed.

Lemma markersOnly_trans (a b c : gset string) :
  markersOnly a b -> markersOnly b c -> markersOnly a c.
Proof.
  intros [Hab Hba] [Hbc Hcb]. split; intros x Hx.
  - apply Hbc. rewrite elem_of_difference in *.
    split; [apply Hab; now rewrite elem_of_difference | tauto].
  - apply Hcb in Hx. rewrite !elem_of_union in Hx.
    destruct Hx as [[Hx | Hx] | Hx];
      [apply Hba in Hx; exact Hx | |]; rewrite !elem_of_union; tauto.
Qed.

Lemma carries_classesOf (c : string) (this : Widget.t) :
  carries c this = bool_decide (c ∈ classesOf this).
Proof.
  unfold carries, classesOf. destruct (Widget.domNode this); [reflexivity |].
  simpl. symmetry. apply bool_decide_eq_false_2. set_solver.
Qed.

(** The node after a [moveToPoint]: its classes and its listeners. *)
Lemma moveToPoint_node (startPoint endPoint : num * num)
    (this this' : Widget.t) :
  moveToPoint startPoint endPoint this = Ok this' ->
  exists node node' : Element.t,
    Widget.domNode this = Some node
    /\ Widget.domNode this' = Some node'
    /\ Element.listeners node'
       = Element.listeners node ++ [("transitionend"%string, ClearPointerEvents)]
    /\ Element.classes node'
       = if Window.requestAnimationFrame (Widget.window this)
         then Element.classes node ∖ {[ "alloy-editor-invisible"%string ]}
         else Element.classes node ∖ {[ "alloy-editor-invisible"%string ]}
                ∪ {[ "ae-toolbar-transition"%string ]}
                ∪ {[ "alloy-editor-visible"%string ]}.
Proof.
  unfold moveToPoint, _animate, runFrameCallback, Widget.with_domNode.
  destruct (Widget.domNode this) as [node |] eqn:Hnode; [| discriminate].
  simpl.
  destruct (Window.requestAnimationFrame (Widget.window this)); simpl;
    rewrite ?Hnode; simpl; intros [= <-]; simpl;
    eexists _, _; repeat split.
Qed.

Lemma listeners_keep (ev : string) (ls : list (string * Listener))
    (node : Element.t) :
  let run (n : Element.t) (l : string * Listener) : Element.t :=
    if bool_decide (fst l = ev) then runListener (snd l) n else n in
  Element.classes (foldl run node ls) = Element.classes node
  /\ Element.listeners (foldl run node ls) = Element.listeners node.
Proof.
  intros run. revert node. induction ls as [| l ls IH]; intros node; simpl.
  - tauto.
  - destruct (IH (run node l)) as [Hc Hl]. rewrite Hc, Hl.
    unfold run. destruct (bool_decide (fst l = ev)); [| tauto].
    now destruct (snd l).
Qed.

Lemma dispatch_keeps (ev : string) (node : Element.t) :
  Element.classes (dispatch ev node) = Element.classes node
  /\ Element.listeners (dispatch ev node) = Element.listeners node.
Proof. apply listeners_keep. Qed.

Lemma runFrameCallback_node (cb : FrameCallback) (this : Widget.t) :
  markersOnly (classesOf this) (classesOf (runFrameCallback cb this))
  /\ listenersOf (runFrameCallback cb this) = listenersOf this
  /\ (Widget.domNode this = None
      <-> Widget.domNode (runFrameCallback cb this) = None).
Proof.
  destruct cb. unfold classesOf, listenersOf, runFrameCallback,
    Widget.with_domNode. simpl.
  destruct (Widget.domNode this); simpl;
    (split; [markers |]); (split; [reflexivity |]); split;
    try discriminate; tauto.
Qed.

Lemma runCallbacks_node (fs : list (nat * FrameCallback)) (this : Widget.t) :
  markersOnly (classesOf this) (classesOf (runCallbacks fs this))
  /\ listenersOf (runCallbacks fs this) = listenersOf this
  /\ (Widget.domNode this = None
      <-> Widget.domNode (runCallbacks fs this) = None).
Proof.
  revert this. induction fs as [| f fs IH]; intros this.
  - cbn. split; [apply markersOnly_refl | tauto].
  - change (runCallbacks (f :: fs) this)
      with (runCallbacks fs (runFrameCallback (snd f) this)).
    destruct (IH (runFrameCallback (snd f) this)) as (Hc & Hl & Hn).
    destruct (runFrameCallback_node (snd f) this) as (Hc' & Hl' & Hn').
    split; [eapply markersOnly_trans; eassumption |].
    split; [congruence | tauto].
Qed.

(** What one step does to the node: to its classes, its listeners and its
    being mounted. *)
Lemma step_node (s : Step) (this this' : Widget.t) :
  step s this = Ok this' ->
  markersOnly (classesOf this) (classesOf this')
  /\ (exists new : list (string * Listener),
        listenersOf this' = listenersOf this ++ new
        /\ Forall (fun l => l = ("transitionend"%string, ClearPointerEvents)) new
        /\ (length new <= 1)%nat)
  /\ (Widget.domNode this = None <-> Widget.domNode this' = None).
Proof.
  assert (Hsame : forall w w' : Widget.t,
             classesOf w' = classesOf w -> listenersOf w' = listenersOf w ->
             (Widget.domNode w = None <-> Widget.domNode w' = None) ->
             markersOnly (classesOf w) (classesOf w')
             /\ (exists new : list (string * Listener),
                   listenersOf w' = listenersOf w ++ new
                   /\ Forall (fun l => l = ("transitionend"%string,
                                            ClearPointerEvents)) new
                   /\ (length new <= 1)%nat)
             /\ (Widget.domNode w = None <-> Widget.domNode w' = None)).
  { intros w w' Hc Hl Hn. rewrite Hc. split; [apply markersOnly_refl |].
    split; [| exact Hn]. exists []. rewrite app_nil_r.
    split; [exact Hl |]. split; [constructor | simpl; lia]. }
  assert (Hmove : forall s e : num * num,
             moveToPoint s e this = Ok this' ->
             markersOnly (classesOf this) (classesOf this')
             /\ (exists new : list (string * Listener),
                   listenersOf this' = listenersOf this ++ new
                   /\ Forall (fun l => l = ("transitionend"%string,
                                            ClearPointerEvents)) new
                   /\ (length new <= 1)%nat)
             /\ (Widget.domNode this = None <-> Widget.domNode this' = None)).
  { intros s0 e0 Hm.
    destruct (moveToPoint_node s0 e0 this this' Hm)
      as (node & node' & Hn & Hn' & Hl & Hc).
    unfold classesOf, listenersOf. rewrite Hn, Hn'. simpl. rewrite Hc, Hl.
    split.
    - destruct (Window.requestAnimationFrame (Widget.window this)); markers.
    - split; [| split; discriminate].
      eexists. split; [reflexivity |].
      split; [repeat constructor | simpl; lia]. }
  destruct s as [[| s0 e0] | | | |]; simpl.
  - intros Hshow. destruct (show_cases this this' Hshow)
      as [[-> _] | (_ & s0 & e0 & Hm)]; [now apply Hsame | now apply (Hmove s0 e0)].
  - apply Hmove.
  - intros Hup. destruct (updatePosition_cases this this' Hup)
      as [-> | (node & p & xy & Hnode & _ & _ & ->)]; [now apply Hsame |].
    apply Hsame; unfold classesOf, listenersOf, Widget.with_domNode; simpl;
      rewrite Hnode; simpl; try reflexivity. split; discriminate.
  - intros [= <-]. destruct (cancelAnimation_parts this) as (Hn & _).
    apply Hsame; unfold classesOf, listenersOf; now rewrite Hn.
  - intros [= <-]. unfold animationFrame.
    set (this0 := Widget.mk _ _ _ _ _).
    destruct (runCallbacks_node (Window.pending (Widget.window this)) this0)
      as (Hc & Hl & Hn).
    split; [exact Hc |]. split; [| exact Hn].
    exists []. rewrite app_nil_r. split; [exact Hl |].
    split; [constructor | simpl; lia].
  - intros [= <-]. unfold transitionEnd, Widget.with_domNode.
    apply Hsame; unfold classesOf, listenersOf; simpl;
      destruct (Widget.domNode this) as [node |]; simpl;
      try reflexivity; try apply dispatch_keeps; try tauto.
    split; discriminate.
Qed.

Lemma steps_node (ss : list Step) (this this' : Widget.t) :
  steps ss this = Ok this' ->
  markersOnly (classesOf this) (classesOf this')
  /\ (exists new : list (string * Listener),
        listenersOf this' = listenersOf this ++ new
        /\ Forall (fun l => l = ("transitionend"%string, ClearPointerEvents)) new
        /\ (length new <= length ss)%nat)
  /\ (Widget.domNode this = None <-> Widget.domNode this' = None).
Proof.
  revert this. induction ss as [| s ss IH]; intros this; simpl.
  - intros [= <-]. split; [apply markersOnly_refl |]. split; [| tauto].
    exists []. rewrite app_nil_r. split; [reflexivity |].
    split; [constructor | simpl; lia].
  - destruct (step s this) as [mid |] eqn:Hs; [| discriminate]. simpl.
    intros Hrest.
    destruct (step_node s this mid Hs) as (Hc1 & (n1 & Hl1 & Hf1 & Hn1) & Hm1).
    destruct (IH mid Hrest) as (Hc2 & (n2 & Hl2 & Hf2 & Hn2) & Hm2).
    split; [eapply markersOnly_trans; eassumption |]. split; [| tauto].
    exists (n1 ++ n2). rewrite Hl2, Hl1, <- app_assoc.
    split; [reflexivity |]. split; [now apply Forall_app |].
    rewrite length_app. lia.
Qed.

(** X15.  Over any run of calls, paints and transition ends the component
    never takes the visible marker off its node and never puts the
    invisible marker on it: a widget that is visible stays visible, a
    widget without the invisible marker stays without it.  No class other
    than the three markers is ever added or removed, and a run does not
    mount or unmount the widget. *)
Theorem markers_over_runs (ss : list Step) (this this' : Widget.t) :
  steps ss this = Ok this' ->
  (isVisible this = true -> isVisible this' = true)
  /\ (carries "alloy-editor-invisible" this = false ->
      carries "alloy-editor-invisible" this' = false)
  /\ (forall c : string,
        c <> "alloy-editor-invisible"%string ->
        c <> "ae-toolbar-transition"%string ->
        c <> "alloy-editor-visible"%string ->
        carries c this' = carries c this)
  /\ (Widget.domNode this = None <-> Widget.domNode this' = None).
Proof.
  intros Hrun.
  destruct (steps_node ss this this' Hrun) as ([Hkeep Hadd] & _ & Hmounted).
  assert (Hvis : forall w : Widget.t,
             isVisible w = carries "alloy-editor-visible" w).
  { intros w. unfold isVisible, carries. now destruct (Widget.domNode w). }
  split; [| split; [| split; [| exact Hmounted]]].
  - rewrite (Hvis this), (Hvis this'), (carries_classesOf _ this),
      (carries_classesOf _ this'), !bool_decide_eq_true.
    intros Hin. apply Hkeep. rewrite elem_of_difference, elem_of_singleton.
    split; [exact Hin | discriminate].
  - rewrite (carries_classesOf _ this), (carries_classesOf _ this'),
      !bool_decide_eq_false.
    intros Hout Hin. apply Hadd in Hin.
    rewrite !elem_of_union, !elem_of_singleton in Hin.
    destruct Hin as [[Hin | Hin] | Hin]; [tauto | discriminate | discriminate].
  - intros c Hi Ht Hv.
    rewrite (carries_classesOf _ this), (carries_classesOf _ this').
    apply bool_decide_ext.
    split; intros Hin.
    + apply Hadd in Hin. rewrite !elem_of_union, !elem_of_singleton in Hin.
      tauto.
    + apply Hkeep. rewrite elem_of_difference, elem_of_singleton. tauto.
Qed.

Lemma markers_over_runs_witness :
  exists this' : Widget.t,
    steps [DoCall CallShow; DoAnimationFrame; DoUpdatePosition;
           DoCall CallShow; DoCancelAnimation; DoTransitionEnd]
          (sampleWidget SELECTION_TOP_TO_BOTTOM) = Ok this'
    /\ carries "ae-toolbar" this' = false
    /\ Widget.domNode this' <> None.
Proof.
  eexists. split; [vm_compute; reflexivity |].
  match goal with
  | |- carries _ ?w = _ /\ _ =>
      destruct (markers_over_runs
                  [DoCall CallShow; DoAnimationFrame; DoUpdatePosition;
                   DoCall CallShow; DoCancelAnimation; DoTransitionEnd]
                  (sampleWidget SELECTION_TOP_TO_BOTTOM) w)
        as (_ & _ & Hother & Hmounted)
  end.
  - vm_compute. reflexivity.
  - split.
    + rewrite Hother by discriminate. reflexivity.
    + intros Hnone. apply Hmounted in Hnone. discriminate Hnone.
Defined.

(** X18.  Every [moveToPoint] registers one more ['transitionend'] handler
    on the node and nothing ever removes one: over any run the handlers
    registered before are still registered, in their order, and those added
    are all of this kind, at most one per step. *)
Theorem listeners_accumulate :
  (forall (startPoint endPoint : num * num) (this this' : Widget.t),
     moveToPoint startPoint endPoint this = Ok this' ->
     listenersOf this'
     = listenersOf this ++ [("transitionend"%string, ClearPointerEvents)])
  /\ (forall (ss : list Step) (this this' : Widget.t),
        steps ss this = Ok this' ->
        exists new : list (string * Listener),
          listenersOf this' = listenersOf this ++ new
          /\ Forall (fun l => l = ("transitionend"%string, ClearPointerEvents))
                    new
          /\ (length new <= length ss)%nat).
Proof.
  split.
  - intros s e this this' Hmove.
    destruct (moveToPoint_node s e this this' Hmove)
      as (node & node' & Hn & Hn' & Hl & _).
    unfold listenersOf. now rewrite Hn, Hn'.
  - intros ss this this' Hrun. now apply (steps_node ss this this').
Qed.

Lemma listeners_accumulate_witness :
  exists this' : Widget.t,
    moveToPoint (Num 0, Num 0) (Num 5, Num 7)
                (sampleWidget SELECTION_TOP_TO_BOTTOM) = Ok this'
    /\ listenersOf this' = [("transitionend"%string, ClearPointerEvents)].
Proof.
  eexists. split; [reflexivity |].
  destruct listeners_accumulate as [Hmove _].
  apply (Hmove (Num 0, Num 0) (Num 5, Num 7)
               (sampleWidget SELECTION_TOP_TO_BOTTOM)).
  reflexivity.
Defined.

(** ** When [show] fails *)

(** X16.  [show] fails exactly on a widget that is mounted and not visible
    when the resolver fails, or when the resolver returns a point and the
    props hold no selection data: the start of the transition is read from
    [this.props.selectionData], not from the event.  A widget that is
    visible or not mounted never makes [show] fail. *)
Theorem show_errors (this : Widget.t) :
  show this = TypeError
  <-> isVisible this = false
      /\ Widget.domNode this <> None
      /\ (getInteractionPoint (Props.editorEvent (Widget.props this))
          = TypeError
          \/ ((exists p : InteractionPoint.t,
                 getInteractionPoint (Props.editorEvent (Widget.props this))
                 = Ok (Some p))
              /\ Props.selectionData (Widget.props this) = None)).
Proof.
  unfold show.
  destruct (isVisible this); simpl.
  { split; [discriminate | intros [H _]; discriminate H]. }
  destruct (Widget.domNode this) as [node |] eqn:Hnode.
  2:{ split; [discriminate | intros (_ & H & _); congruence]. }
  destruct (getInteractionPoint _) as [[p |] |]; simpl.
  - destruct (Props.selectionData _) as [sd |]; simpl.
    + split.
      * intros Hmove.
        match type of Hmove with
        | moveToPoint ?s ?e this = _ =>
            destruct (moveToPoint_mounted s e this) as [w Hw];
              [congruence | rewrite Hw in Hmove; discriminate Hmove]
        end.
      * intros (_ & _ & [H | [_ H]]); discriminate H.
    + split; [intros _ | reflexivity].
      split; [reflexivity |]. split; [discriminate |]. right. eauto.
  - split; [discriminate |].
    intros (_ & _ & [H | [[p H] _]]); discriminate H.
  - split; [intros _ | reflexivity].
    split; [reflexivity |]. split; [discriminate |]. now left.
Qed.

Lemma show_errors_witness :
  show widgetWithoutSelection = TypeError.
Proof.
  apply (show_errors widgetWithoutSelection).
  split; [reflexivity |]. split; [discriminate |].
  right. split; [| reflexivity]. eexists. reflexivity.
Defined.

(** ** From the paint to the end of the transition *)

Lemma runFrameCallback_styles (endPoint : num * num) (this : Widget.t)
    (node : Element.t) :
  Widget.domNode this = Some node ->
  exists node' : Element.t,
    Widget.domNode (runFrameCallback (TransitionTo endPoint) this) = Some node'
    /\ Element.getStyle node' "left" = CssPx (fst endPoint)
    /\ Element.getStyle node' "top" = CssPx (snd endPoint)
    /\ Element.getStyle node' "opacity" = CssNumber 1
    /\ Element.getStyle node' "pointerEvents"
       = Element.getStyle node "pointerEvents"
    /\ Element.classes node'
       = Element.classes node ∪ {[ "ae-toolbar-transition"%string ]}
                              ∪ {[ "alloy-editor-visible"%string ]}
    /\ Element.listeners node' = Element.listeners node.
Proof.
  intros Hnode. unfold runFrameCallback, Widget.with_domNode. simpl.
  rewrite Hnode. simpl. eexists. split; [reflexivity |].
  repeat split; now lookup_styles.
Qed.

(** The paint runs the callback requested last after all the others. *)
Lemma animationFrame_last (this : Widget.t) (node : Element.t)
    (fs : list (nat * FrameCallback)) (id : nat) (endPoint : num * num) :
  Widget.domNode this = Some node ->
  Window.pending (Widget.window this) = fs ++ [(id, TransitionTo endPoint)] ->
  exists node' : Element.t,
    Widget.domNode (animationFrame this) = Some node'
    /\ Element.getStyle node' "left" = CssPx (fst endPoint)
    /\ Element.getStyle node' "top" = CssPx (snd endPoint)
    /\ Element.getStyle node' "opacity" = CssNumber 1
    /\ "alloy-editor-visible" ∈ Element.classes node'
    /\ ("alloy-editor-invisible" ∉ Element.classes node ->
        "alloy-editor-invisible" ∉ Element.classes node')
    /\ Element.listeners node' = Element.listeners node.
Proof.
  intros Hnode Hpending. unfold animationFrame. rewrite Hpending.
  set (this0 := Widget.mk _ _ _ _ _).
  unfold runCallbacks. rewrite foldl_app. cbn [foldl snd].
  fold (runCallbacks fs this0).
  destruct (runCallbacks_node fs this0) as ([_ Hadd] & Hl & Hn).
  destruct (Widget.domNode (runCallbacks fs this0)) as [node1 |] eqn:Hnode1.
  2:{ exfalso. assert (Widget.domNode this0 = None) by tauto.
      unfold this0 in *. simpl in *. congruence. }
  destruct (runFrameCallback_styles endPoint _ node1 Hnode1)
    as (node' & Hsome & Hleft & Htop & Hop & _ & Hc & Hl').
  exists node'. split; [exact Hsome |].
  split; [exact Hleft |]. split; [exact Htop |]. split; [exact Hop |].
  unfold classesOf, listenersOf in Hadd, Hl. rewrite Hnode1 in Hadd, Hl.
  unfold this0 in Hadd, Hl. simpl in Hadd, Hl. rewrite Hnode in Hadd, Hl.
  simpl in Hadd, Hl.
  split; [| split].
  - rewrite Hc. apply elem_of_union_r. now apply elem_of_singleton.
  - intros Hout. rewrite Hc, !elem_of_union, !elem_of_singleton.
    intros [[Hin | Hin] | Hin]; [| discriminate Hin | discriminate Hin].
    apply Hadd in Hin. rewrite !elem_of_union, !elem_of_singleton in Hin.
    destruct Hin as [[Hin | Hin] | Hin];
      [tauto | discriminate Hin | discriminate Hin].
  - congruence.
Qed.

(** X17.  On a mounted, hidden widget with a resolved point, [show] puts the
    node at its own inline left and at the bottom of the selection of the
    props for TOP_TO_BOTTOM, its top otherwise, plus the scroll position of
    the UI node; the widget is not visible yet.  The next paint makes it
    visible at the inline position it had before the call, constrained to
    the viewport when [constrainToViewport] is set: the coordinates of the
    interaction point play no part, only its direction. *)
Theorem show_then_paint (this : Widget.t) (node : Element.t)
    (p : InteractionPoint.t) (sd : SelectionData.t) :
  isVisible this = false ->
  Widget.domNode this = Some node ->
  getInteractionPoint (Props.editorEvent (Widget.props this)) = Ok (Some p) ->
  Props.selectionData (Widget.props this) = Some sd ->
  Window.requestAnimationFrame (Widget.window this) = true ->
  let left0 := parseFloat (Element.getStyle node "left") in
  let top0 := parseFloat (Element.getStyle node "top") in
  let scrollTop := from_option Element.scrollTop 0 (Widget.uiNode this) in
  let edge :=
    if decide (InteractionPoint.direction p = SELECTION_TOP_TO_BOTTOM)
    then Region.bottom (SelectionData.region sd)
    else Region.top (SelectionData.region sd) in
  let constrained :=
    getConstrainedPosition (Window.viewPaneSize (Widget.window this))
      (Attrs.mk (Num (Element.offsetHeight node)) left0 top0
                (Num (Element.offsetWidth node))) None in
  exists this' : Widget.t,
    show this = Ok this'
    /\ isVisible this' = false
    /\ styledAt this' = Some (left0, Num (edge + scrollTop))
    /\ isVisible (animationFrame this') = true
    /\ styledAt (animationFrame this')
       = Some (if Props.constrainToViewport (Widget.props this)
               then (Position.x constrained, Position.y constrained)
               else (left0, top0)).
Proof.
  intros Hhidden Hnode Hpoint Hsd Hraf left0 top0 scrollTop edge constrained.
  set (endPoint := if Props.constrainToViewport (Widget.props this)
                   then (Position.x constrained, Position.y constrained)
                   else (left0, top0)).
  assert (Hshow : show this
                  = moveToPoint (left0, Num (edge + scrollTop)) endPoint this).
  { unfold show. rewrite Hhidden, Hnode, Hpoint. simpl. rewrite Hsd. simpl.
    unfold endPoint, constrained, edge, scrollTop, left0, top0.
    destruct (Widget.uiNode this); simpl;
      destruct (decide (InteractionPoint.direction p = SELECTION_TOP_TO_BOTTOM));
      destruct (Props.constrainToViewport (Widget.props this)); reflexivity. }
  destruct (moveToPoint_mounted (left0, Num (edge + scrollTop)) endPoint this)
    as [this' Hmove]; [congruence |].
  exists this'. split; [congruence |].
  destruct (moveToPoint_result _ _ this this' Hmove)
    as (_ & _ & _ & _ & Hreq & _).
  destruct (Hreq Hraf) as [Hpending _].
  destruct (moveToPoint_pending_node _ _ this this' node Hnode Hraf Hmove)
    as (_ & node' & Hnode' & Hstyle & Hclasses).
  destruct (animationFrame_last this' node' _ _ endPoint Hnode' Hpending)
    as (node'' & Hnode'' & Hleft & Htop & _ & Hvis & _).
  repeat split.
  - unfold isVisible in *. rewrite Hnode'. rewrite Hnode in Hhidden.
    unfold Element.hasClass in *. rewrite Hclasses.
    apply bool_decide_eq_false in Hhidden. apply bool_decide_eq_false_2.
    rewrite elem_of_difference. tauto.
  - unfold styledAt. rewrite Hnode'. simpl. unfold Element.getStyle.
    rewrite Hstyle. simpl. do 2 f_equal;
      rewrite !lookup_insert; repeat (case_decide; try congruence);
      reflexivity.
  - unfold isVisible. rewrite Hnode''. now apply bool_decide_eq_true_2.
  - unfold styledAt. rewrite Hnode''. simpl. rewrite Hleft, Htop. simpl.
    now destruct endPoint.
Qed.

Lemma show_then_paint_witness :
  exists this' : Widget.t,
    show (sampleWidget SELECTION_TOP_TO_BOTTOM) = Ok this'
    /\ styledAt this' = Some (Num 200, Num (120 + 0))
    /\ isVisible (animationFrame this') = true.
Proof.
  destruct (show_then_paint (sampleWidget SELECTION_TOP_TO_BOTTOM) sampleNode
              (InteractionPoint.mk SELECTION_TOP_TO_BOTTOM 30 120)
              (sampleSelection SELECTION_TOP_TO_BOTTOM)
              eq_refl eq_refl eq_refl eq_refl eq_refl)
    as (this' & Hshow & _ & Hstart & Hvis & _).
  exists this'. split; [exact Hshow |]. split; [exact Hstart | exact Hvis].
Defined.

Lemma listeners_clear (ev : string) (ls : list (string * Listener))
    (node : Element.t) :
  let run (n : Element.t) (l : string * Listener) : Element.t :=
    if bool_decide (fst l = ev) then runListener (snd l) n else n in
  (forall name : string,
     name <> "pointerEvents"%string ->
     Element.getStyle (foldl run node ls) name = Element.getStyle node name)
  /\ (Element.getStyle node "pointerEvents" = CssText ""
      \/ Exists (fun l => fst l = ev) ls ->
      Element.getStyle (foldl run node ls) "pointerEvents" = CssText "").
Proof.
  intros run. revert node. induction ls as [| l ls IH]; intros node; simpl.
  - split; [reflexivity |]. intros [H | H]; [exact H | inversion H].
  - destruct (IH (run node l)) as [Hother Hclear].
    assert (Hstep : (forall name : string,
                       name <> "pointerEvents"%string ->
                       Element.getStyle (run node l) name
                       = Element.getStyle node name)
                    /\ (Element.getStyle node "pointerEvents" = CssText ""
                        \/ fst l = ev ->
                        Element.getStyle (run node l) "pointerEvents"
                        = CssText "")).
    { unfold run. destruct (bool_decide (fst l = ev)) eqn:Hev.
      - destruct (snd l). split.
        + intros name Hname. unfold Element.getStyle. simpl.
          now rewrite lookup_insert_ne by congruence.
        + intros _. unfold Element.getStyle. simpl.
          now rewrite lookup_insert_eq.
      - split; [reflexivity |]. intros [H | H]; [exact H |].
        apply bool_decide_eq_false in Hev. contradiction. }
    destruct Hstep as [Hother1 Hclear1]. split.
    + intros name Hname. rewrite Hother by exact Hname. now apply Hother1.
    + intros [H | H]; apply Hclear.
      * left. apply Hclear1. now left.
      * inversion H as [? ? Hhead | ? ? Htail]; subst.
        -- left. apply Hclear1. now right.
        -- now right.
Qed.

(** X19.  A transition runs to its end.  After a [moveToPoint] whose frame
    was requested, the next paint and the end of the CSS transition leave
    the widget visible at the end point with full opacity, without the
    invisible marker, with its inline [pointerEvents] cleared again, and
    with no frame outstanding. *)
Theorem transition_completes (startPoint endPoint : num * num)
    (this this' : Widget.t) :
  moveToPoint startPoint endPoint this = Ok this' ->
  Window.requestAnimationFrame (Widget.window this) = true ->
  let final := transitionEnd (animationFrame this') in
  isVisible final = true
  /\ styledAt final = Some endPoint
  /\ (fun node => Element.getStyle node "opacity") <$> Widget.domNode final
     = Some (CssNumber 1)
  /\ (fun node => Element.getStyle node "pointerEvents") <$> Widget.domNode final
     = Some (CssText "")
  /\ carries "alloy-editor-invisible" final = false
  /\ outstanding final = [].
Proof.
  intros Hmove Hraf final.
  destruct (moveToPoint_node _ _ this this' Hmove)
    as (node & node' & Hnode & Hnode' & Hlisteners & Hclasses).
  rewrite Hraf in Hclasses.
  destruct (moveToPoint_result _ _ this this' Hmove)
    as (_ & _ & _ & _ & Hreq & _).
  destruct (Hreq Hraf) as [Hpending _].
  destruct (animationFrame_last this' node' _ _ endPoint Hnode' Hpending)
    as (painted & Hpainted & Hleft & Htop & Hop & Hvis & Hinv & Hl).
  assert (Hout : "alloy-editor-invisible" ∉ Element.classes painted).
  { apply Hinv. rewrite Hclasses, elem_of_difference, elem_of_singleton.
    tauto. }
  destruct (dispatch_keeps "transitionend" painted) as [Hc _].
  destruct (listeners_clear "transitionend" (Element.listeners painted) painted)
    as [Hother Hclear].
  fold (dispatch "transitionend" painted) in Hother, Hclear.
  unfold final, transitionEnd, isVisible, styledAt, carries, outstanding,
    Widget.with_domNode.
  simpl. rewrite Hpainted. simpl. unfold Element.hasClass. rewrite Hc.
  rewrite !Hother by discriminate. rewrite Hleft, Htop, Hop.
  repeat split.
  - now apply bool_decide_eq_true_2.
  - now destruct endPoint.
  - f_equal. apply Hclear. right. rewrite Hl, Hlisteners.
    apply Exists_app. right. now constructor.
  - now apply bool_decide_eq_false_2.
  - apply animationFrame_frame.
Qed.

Lemma transition_completes_witness :
  exists this' : Widget.t,
    moveToPoint (Num 0, Num 0) (Num 5, Num 7)
                (sampleWidget SELECTION_TOP_TO_BOTTOM) = Ok this'
    /\ isVisible (transitionEnd (animationFrame this')) = true
    /\ styledAt (transitionEnd (animationFrame this')) = Some (Num 5, Num 7).
Proof.
  eexists. split; [reflexivity |].
  destruct (transition_completes (Num 0, Num 0) (Num 5, Num 7)
              (sampleWidget SELECTION_TOP_TO_BOTTOM) _ eq_refl eq_refl)
    as (Hv & Hs & _).
  split; [exact Hv | exact Hs].
Defined.

(** ** The pressed state of the image button *)

Lemma append_cons (c : Ascii.ascii) (s t : string) :
  String.append (String c s) t = String c (String.append s t).
Proof. reflexivity. Qed.

Lemma append_empty (t : string) : String.append "" t = t.
Proof. reflexivity. Qed.

Lemma prefix_append (needle hay : string) :
  String.prefix needle hay = true
  <-> exists post : string, hay = String.append needle post.
Proof.
  revert hay. induction needle as [| a needle IH]; intros hay.
  - split; [intros _; now exists hay | intros _; now destruct hay].
  - destruct hay as [| b hay]; simpl.
    + split; [discriminate | intros [post H]; discriminate H].
    + destruct (Ascii.ascii_dec a b) as [-> | Hne].
      * rewrite IH. split; intros [post H]; exists post;
          rewrite append_cons in *; congruence.
      * split; [discriminate |].
        intros [post H]. rewrite append_cons in H. congruence.
Qed.

Lemma indexOf_range (needle hay : string) :
  ButtonImageAlignLeft.indexOf needle hay = (-1)%Z
  \/ (0 <= ButtonImageAlignLeft.indexOf needle hay)%Z.
Proof.
  induction hay as [| c rest IH]; cbn [ButtonImageAlignLeft.indexOf].
  - destruct (String.prefix needle ""); [right; lia | now left].
  - destruct (String.prefix needle (String c rest)); [right; lia |].
    destruct (Z.eqb_spec (ButtonImageAlignLeft.indexOf needle rest) (-1));
      [now left | right; lia].
Qed.

(** [indexOf] finds a text exactly when it occurs. *)
Lemma indexOf_found (needle hay : string) :
  ButtonImageAlignLeft.indexOf needle hay <> (-1)%Z <-> occursIn needle hay.
Proof.
  induction hay as [| c rest IH]; cbn [ButtonImageAlignLeft.indexOf].
  - destruct (String.prefix needle "") eqn:Hp.
    + split; [intros _ | discriminate].
      apply prefix_append in Hp as [post Hp]. now exists ""%string, post.
    + split; [congruence |]. intros (pre & post & H).
      destruct pre; [| discriminate H]. rewrite append_empty in H.
      assert (String.prefix needle "" = true)
        by (apply prefix_append; now exists post).
      congruence.
  - destruct (String.prefix needle (String c rest)) eqn:Hp.
    + split; [intros _ | discriminate].
      apply prefix_append in Hp as [post Hp]. now exists ""%string, post.
    + destruct (indexOf_range needle rest) as [Hi | Hi].
      * rewrite Hi. simpl. split; [congruence |].
        intros (pre & post & H). destruct pre as [| d pre].
        -- rewrite append_empty in H.
           assert (String.prefix needle (String c rest) = true)
             by (apply prefix_append; now exists post).
           congruence.
        -- rewrite append_cons in H. injection H as _ H. exfalso.
           apply IH; [| exact Hi]. now exists pre, post.
      * destruct (Z.eqb_spec (ButtonImageAlignLeft.indexOf needle rest) (-1));
          [lia |].
        split; [intros _ | lia].
        destruct IH as [IH _]. destruct (IH n) as (pre & post & H).
        exists (String c pre), post. rewrite append_cons. now rewrite H.
Qed.

(** X20.  The button is rendered pressed exactly when the state classes
    contain ['pressed']: the fixed ['ae-button '] in front of them cannot
    make or complete an occurrence.  Its class is ['ae-button '] followed by
    the state classes, and its label and title are the same text. *)
Theorem button_pressed (stateClasses alignLeft : string) (tabIndex : option Z) :
  let button := ButtonImageAlignLeft.render stateClasses alignLeft tabIndex in
  (ButtonImageAlignLeft.ariaPressed button = true
   <-> occursIn "pressed" stateClasses)
  /\ ButtonImageAlignLeft.className button
     = String.append "ae-button " stateClasses
  /\ ButtonImageAlignLeft.ariaLabel button = ButtonImageAlignLeft.title button.
Proof.
  intros button. split; [| split; reflexivity].
  unfold button, ButtonImageAlignLeft.render.
  cbn [ButtonImageAlignLeft.ariaPressed].
  rewrite negb_true_iff, Z.eqb_neq, <- (indexOf_found "pressed" stateClasses).
  assert (Hskip : forall (c : Ascii.ascii) (rest : string),
             String.prefix "pressed" (String c rest) = false ->
             (ButtonImageAlignLeft.indexOf "pressed" (String c rest) <> (-1)%Z
              <-> ButtonImageAlignLeft.indexOf "pressed" rest <> (-1)%Z)).
  { intros c rest Hp. cbn [ButtonImageAlignLeft.indexOf]. rewrite Hp.
    destruct (indexOf_range "pressed" rest) as [Hi | Hi].
    - rewrite Hi. reflexivity.
    - destruct (Z.eqb_spec (ButtonImageAlignLeft.indexOf "pressed" rest) (-1));
        lia. }
  rewrite ?append_cons, ?append_empty.
  do 10 (rewrite Hskip by reflexivity).
  reflexivity.
Qed.

Lemma button_pressed_witness :
  ButtonImageAlignLeft.ariaPressed
    (ButtonImageAlignLeft.render "ae-button-pressed" "Align left" (Some 0%Z))
  = true.
Proof.
  apply (button_pressed "ae-button-pressed" "Align left" (Some 0%Z)).
  exists "ae-button-"%string, ""%string. reflexivity.
Defined.

Lemma getConstrainedPosition_left_down_witness :
  exists x y : Q,
    getConstrainedPosition (ViewPaneSize.mk (Num 1024))
      (Attrs.mk (Num 20) (Num 100) (Num 5) (Num 10))
      (Some (ViewPaneSize.mk (Num 120)))
    = Position.mk (Num x) (Num y)
    /\ x = 100 /\ y = 5.
Proof.
  destruct (getConstrainedPosition_left_down 100 5 10 20 120
              (ViewPaneSize.mk (Num 1024)))
    as (x & y & Heq & _ & _ & _ & _ & Hfit & Htop).
  exists x, y. split; [exact Heq |].
  split; [apply Hfit | apply Htop]; discriminate.
Defined.

Lemma updatePosition_errors_witness :
  updatePosition
    (Widget.mk (Props.mk eventWithoutNative (Gutter.mk 0 10) true None)
               None (Some sampleNode) None sampleWindow)
  = TypeError.
Proof.
  apply (updatePosition_errors
           (Widget.mk (Props.mk eventWithoutNative (Gutter.mk 0 10) true None)
                      None (Some sampleNode) None sampleWindow)).
  reflexivity.
Defined.
